(** * lordicon player-web: marker parsing, state selection and transport

    A shallow embedding of [src/player.ts] (the [Player] facade) and of the
    path accessor of [utils.ts] ([isNil], [isObjectLike], [has], [get],
    [set]), together with the properties of the specification that can be
    stated over them.

    Conventions of the embedding.
    - Documents are data, the inductive [value]: objects are finite maps
      from property names to values, arrays are objects with a [length].
      They are trees: that two places hold one and the same object is not
      represented.  What a value inherits from the prototypes is given by
      a [Realm], a parameter of the embedding; a variable that may hold
      data or a member of a prototype has type [any].
    - Numbers are exact rationals extended with [NaN]; rounding, the
      infinities and the negative zero of IEEE doubles are not represented.
    - A function that may raise returns a [result]; a method of the facade
      is a computation in the monad [M], which threads the fields of the
      object and keeps them when an exception is thrown.
    - The players of the embedding hold no listeners: the listener
      registry is embedded apart ([Events]), and [triggerEvent] is not.
    - The renderer (the animation engine), the property extractor
      ([lottie.ts]) and the stroke parser ([parsers.ts]) are collaborators
      whose source is not part of the embedded files: they are interfaces
      (type classes), and every theorem holds for all their
      implementations. *)

From Stdlib Require Import QArith Qround DecimalString Ascii Lqa.
From stdpp Require Import base option list gmap strings.

#[local] Set Warnings "-register-all".
#[local] Open Scope string_scope.

(** ** ECMAScript data *)

Module JS.

(** *** Numbers *)

Inductive number :=
| NaN
| Fin (q : Q).

Definition num (z : Z) : number := Fin (inject_Z z).

Definition num_add (a b : number) : number :=
  match a, b with
  | Fin x, Fin y => Fin (Qred (x + y))
  | _, _ => NaN
  end.

Definition num_sub (a b : number) : number :=
  match a, b with
  | Fin x, Fin y => Fin (Qred (x - y))
  | _, _ => NaN
  end.

Definition num_mul (a b : number) : number :=
  match a, b with
  | Fin x, Fin y => Fin (Qred (x * y))
  | _, _ => NaN
  end.

(** The source divides by the constants 2 and 50 only; a zero divisor,
    which would give an infinity, is mapped to [NaN]. *)
Definition num_div (a b : number) : number :=
  match a, b with
  | Fin x, Fin y => if Qeq_bool y 0 then NaN else Fin (Qred (x / y))
  | _, _ => NaN
  end.

(** [a > b]: false as soon as one side is [NaN]. *)
Definition num_gt (a b : number) : bool :=
  match a, b with
  | Fin x, Fin y => negb (Qle_bool x y)
  | _, _ => false
  end.

(** [a === b] on numbers: [NaN] differs from everything. *)
Definition num_eq (a b : number) : bool :=
  match a, b with
  | Fin x, Fin y => Qeq_bool x y
  | _, _ => false
  end.

(** [Math.max(a, b)] and [Math.min(a, b)]. *)
Definition num_max (a b : number) : number :=
  match a, b with
  | Fin x, Fin y => if Qle_bool x y then b else a
  | _, _ => NaN
  end.

Definition num_min (a b : number) : number :=
  match a, b with
  | Fin x, Fin y => if Qle_bool x y then a else b
  | _, _ => NaN
  end.

(** [a > 0] as a proposition. *)
Definition num_positive (a : number) : Prop :=
  match a with
  | Fin q => (0 < q)%Q
  | NaN => False
  end.



Definition is_nat_number (a : number) : option nat :=
  match a with
  | Fin q =>
      if Qeq_bool q (inject_Z (Qfloor q)) && (0 <=? Qfloor q)%Z
      then Some (Z.to_nat (Qfloor q)) else None
  | NaN => None
  end.

(** *** Values *)

Inductive value :=
| VUndefined
| VNull
| VBool (b : bool)
| VNum (n : number)
| VStr (s : string)
| VObject (props : gmap string value)
| VArray (len : nat) (props : gmap string value).

(** A dense array literal [[v0, v1, ...]]. *)
Definition index_key (i : nat) : string :=
  NilZero.string_of_uint (Nat.to_uint i).

Fixpoint array_props (i : nat) (vs : list value) : gmap string value :=
  match vs with
  | [] => ∅
  | v :: rest => <[index_key i := v]> (array_props (S i) rest)
  end.

Definition array_of (vs : list value) : value :=
  VArray (length vs) (array_props 0 vs).

Definition object_of (kvs : list (string * value)) : value :=
  VObject (list_to_map kvs).

(** The array index a property name denotes, if it is the canonical
    decimal spelling of one. *)
Definition index_of_key (k : string) : option nat :=
  match NilEmpty.uint_of_string k with
  | Some u =>
      let n := Nat.of_uint u in
      if String.eqb (index_key n) k then Some n else None
  | None => None
  end.

(** Truthiness ([if (v)], [!v], [a && b], [a || b]). *)
Definition truthy (v : value) : bool :=
  match v with
  | VUndefined | VNull => false
  | VBool b => b
  | VNum NaN => false
  | VNum (Fin q) => negb (Qeq_bool q 0)
  | VStr s => negb (String.eqb s "")
  | VObject _ | VArray _ _ => true
  end.

(** [Array.prototype.includes] on a literal of primitives
    (SameValueZero against each element). *)
Definition same_value_zero_prim (lit v : value) : bool :=
  match lit, v with
  | VNum NaN, VNum NaN => true
  | VNum a, VNum b => num_eq a b
  | VStr a, VStr b => String.eqb a b
  | VBool a, VBool b => Bool.eqb a b
  | VUndefined, VUndefined => true
  | VNull, VNull => true
  | _, _ => false
  end.

Definition includes (lits : list value) (v : value) : bool :=
  existsb (fun lit => same_value_zero_prim lit v) lits.

(** [String.prototype.split] with a one-character separator. *)
Fixpoint split (sep : ascii) (s : string) : list string :=
  match s with
  | EmptyString => [EmptyString]
  | String c rest =>
      if Ascii.eqb c sep then EmptyString :: split sep rest
      else match split sep rest with
           | [] => [String c EmptyString]
           | tok :: toks => String c tok :: toks
           end
  end.

(** [String.prototype.startsWith]. *)
Definition startsWith (s pre : string) : bool := String.prefix pre s.

(** [String.prototype.toLowerCase] on the ASCII range. *)
Definition lower_ascii (c : ascii) : ascii :=
  let n := nat_of_ascii c in
  if (65 <=? n)%nat && (n <=? 90)%nat then ascii_of_nat (n + 32) else c.

Fixpoint toLowerCase (s : string) : string :=
  match s with
  | EmptyString => EmptyString
  | String c rest => String (lower_ascii c) (toLowerCase rest)
  end.

(** *** Exceptions *)

Inductive error :=
| TypeError (msg : string)
| RangeError (msg : string)
| Error (msg : string).

Inductive result (A : Type) :=
| Ok (a : A)
| Throw (e : error).
Arguments Ok {A} a.
Arguments Throw {A} e.

Definition rbind {A B} (r : result A) (k : A -> result B) : result B :=
  match r with
  | Ok a => k a
  | Throw e => Throw e
  end.

(** *** Prototypes

    [key in o] and [o[key]] look at what [o] holds and then along its
    prototype chain: [Object.prototype] for an object, [Array.prototype]
    and then [Object.prototype] for an array, the prototype of the
    wrapper for a boolean, a number or a string.  What the prototypes
    hold depends on the engine and on what the program has added to
    them, so the embedding takes them as given.  The objects they are
    made of, prototypes and functions, are the [builtin]s; a document is
    data, and a [value] holds none of them.  Reading a member of a
    prototype returns: the prototypes hold no getter that raises. *)

(** What a variable of type [any] may hold. *)
Inductive any (B : Type) :=
| Data (v : value)
| Builtin (b : B).
Arguments Data {B} v.
Arguments Builtin {B} b.

Class Realm := {
  builtin : Type;
  (** [typeof b === "object"]: true of a prototype, false of a
      function. *)
  builtin_is_object : builtin -> bool;
  (** [b[key]] when [key in b], own or inherited. *)
  builtin_member : builtin -> string -> option (any builtin);
  (** The member [key] on the prototype chain of a value other than
      [undefined] and [null]. *)
  inherited : value -> string -> option (any builtin);
  (** [ToPrimitive(b)]: what a builtin is in arithmetic. *)
  builtin_primitive : builtin -> value;
  (** [receiver[key] = v] on a receiver that does not hold [key], when
      the prototype chain takes the assignment: a setter, which returns
      or raises, or a read-only member, which raises in strict code.
      [None] when the chain leaves the assignment to the receiver. *)
  inherited_assign : value -> string -> value -> option (result unit);
  (** [b[key] = v] *)
  builtin_assign : builtin -> string -> value -> result unit;
}.

(** The properties a value holds itself: the members of an object, the
    length and the elements of an array, the length and the characters
    of a string. *)
Definition own_property (v : value) (key : string) : option value :=
  match v with
  | VObject m => m !! key
  | VArray len m =>
      if String.eqb key "length" then Some (VNum (num (Z.of_nat len)))
      else m !! key
  | VStr s =>
      if String.eqb key "length"
      then Some (VNum (num (Z.of_nat (String.length s))))
      else match index_of_key key with
           | Some i =>
               option_map (fun c => VStr (String c EmptyString)) (String.get i s)
           | None => None
           end
  | _ => None
  end.

(** Property lookup: what the value holds itself, then its prototype
    chain. *)
Definition lookup `{Realm} (current : any builtin) (key : string)
  : option (any builtin) :=
  match current with
  | Data v =>
      match own_property v key with
      | Some x => Some (Data x)
      | None => inherited v key
      end
  | Builtin b => builtin_member b key
  end.

(** An operand of [+], [*] or [/]: a builtin enters as its primitive. *)
Definition primitive `{Realm} (a : any builtin) : value :=
  match a with
  | Data v => v
  | Builtin b => builtin_primitive b
  end.

(** *** Coercions

    [ToNumber] and [ToString] are built into the language.  The embedding
    fixes them on the values whose conversion is the identity and leaves
    the rest (numeric strings, arrays, ...) to the implementation. *)

Class Coercion := {
  ToNumber : value -> number;
  ToString : value -> string;
  ToNumber_VNum : forall n, ToNumber (VNum n) = n;
  ToString_VStr : forall s, ToString (VStr s) = s;
}.

(** [a * b] and [a / b] convert both operands to numbers. *)
Definition js_mul `{Coercion} (a b : value) : value :=
  VNum (num_mul (ToNumber a) (ToNumber b)).

Definition js_div `{Coercion} (a b : value) : value :=
  VNum (num_div (ToNumber a) (ToNumber b)).

(** [a + b] concatenates when one operand is, or converts to, a string
    (strings, objects and arrays), and adds numbers otherwise. *)
Definition is_stringy (v : value) : bool :=
  match v with
  | VStr _ | VObject _ | VArray _ _ => true
  | _ => false
  end.

Definition js_add `{Coercion} (a b : value) : value :=
  if is_stringy a || is_stringy b
  then VStr (ToString a +:+ ToString b)
  else VNum (num_add (ToNumber a) (ToNumber b)).

End JS.
Import JS.

Notation "x <-? r ; k" := (rbind r (fun x => k))
  (at level 100, r at next level, right associativity).

(** ** The path accessor ([utils.ts]) *)

Module Utils.

(** [deepClone]: [structuredClone] of a JSON tree is the tree. *)
Definition deepClone {A} (v : A) : A := v.

Definition isNil (v : value) : bool :=
  match v with
  | VNull | VUndefined => true
  | _ => false
  end.

Definition isObjectLike `{Realm} (v : any builtin) : bool :=
  match v with
  | Data (VObject _) | Data (VArray _ _) => true
  | Data _ => false
  | Builtin b => builtin_is_object b
  end.

(** [key in current]: raises on a primitive. *)
Definition js_in `{Realm} (key : string) (current : any builtin) : result bool :=
  match current with
  | Data (VObject _) | Data (VArray _ _) | Builtin _ =>
      Ok (bool_decide (is_Some (lookup current key)))
  | Data _ =>
      Throw (TypeError "Cannot use 'in' operator to search for a key in a primitive")
  end.

(** [current[key]]: raises on [undefined] and [null]. *)
Definition js_get `{Realm} (current : any builtin) (key : string)
  : result (any builtin) :=
  match current with
  | Data VUndefined | Data VNull =>
      Throw (TypeError "Cannot read properties of undefined or null")
  | _ => Ok (default (Data VUndefined) (lookup current key))
  end.

(** The part of an array that survives [length = n]. *)
Definition keeps_below (n : nat) (kv : string * value) : Prop :=
  match index_of_key kv.1 with
  | Some i => (i < n)%nat
  | None => True
  end.

#[export] Instance keeps_below_dec n kv : Decision (keeps_below n kv).
Proof. unfold keeps_below. destruct (index_of_key kv.1); apply _. Defined.

(** [current[key] = v] in strict code, on data.  A member the receiver
    holds is overwritten (read-only on a string); otherwise the prototype
    chain may take the assignment; otherwise the member is created, which
    raises on a primitive. *)
Definition js_put `{Realm} `{Coercion} (current : value) (key : string) (v : value)
  : result value :=
  match current with
  | VUndefined | VNull =>
      Throw (TypeError "Cannot set properties of undefined or null")
  | VBool _ | VNum _ | VStr _ =>
      match own_property current key, inherited_assign current key v with
      | None, Some r => _ <-? r; Ok current
      | _, _ => Throw (TypeError "Cannot create property on a primitive")
      end
  | VObject m =>
      match m !! key, inherited_assign current key v with
      | None, Some r => _ <-? r; Ok current
      | _, _ => Ok (VObject (<[key := v]> m))
      end
  | VArray len m =>
      if String.eqb key "length" then
        match is_nat_number (ToNumber v) with
        | Some n => Ok (VArray n (filter (keeps_below n) m))
        | None => Throw (RangeError "Invalid array length")
        end
      else
        match m !! key, inherited_assign current key v with
        | None, Some r => _ <-? r; Ok current
        | _, _ =>
            match index_of_key key with
            | Some i => Ok (VArray (Nat.max len (S i)) (<[key := v]> m))
            | None => Ok (VArray len (<[key := v]> m))
            end
        end
  end.

(** A path is a dot-delimited string or an array of keys. *)
Inductive path :=
| PathString (s : string)
| PathArray (keys : list string).

(** [Array.isArray(path) ? path : path.split(".")] *)
Definition newPath (p : path) : list string :=
  match p with
  | PathArray keys => keys
  | PathString s => split "." s
  end.

Fixpoint has_loop `{Realm} (current : any builtin) (keys : list string)
  : result bool :=
  match keys with
  | [] => Ok true
  | key :: rest =>
      if negb (isObjectLike current) then Ok false
      else
        present <-? js_in key current;
        if negb present then Ok false
        else
          next <-? js_get current key;
          has_loop next rest
  end.

Definition has `{Realm} (object : value) (p : path) : result bool :=
  has_loop (Data object) (newPath p).

Fixpoint get_loop `{Realm} (current : any builtin) (keys : list string)
  (defaultValue : value) : result (any builtin) :=
  match keys with
  | [] =>
      Ok (match current with
          | Data VUndefined => Data defaultValue
          | _ => current
          end)
  | key :: rest =>
      if negb (isObjectLike current) then Ok (Data defaultValue)
      else
        present <-? js_in key current;
        if negb present then Ok (Data defaultValue)
        else
          next <-? js_get current key;
          get_loop next rest defaultValue
  end.

(** [get(object, path, defaultValue)]; an omitted default is
    [undefined]. *)
Definition get `{Realm} (object : value) (p : path) (defaultValue : value)
  : result (any builtin) :=
  get_loop (Data object) (newPath p) defaultValue.

(** The slot [key] of [parent] refers to the object the loop of [set]
    went on to mutate: the tree shows the mutated child there. *)
Definition write_back (parent : value) (key : string) (child : value) : value :=
  match parent with
  | VObject m => VObject (<[key := child]> m)
  | VArray len m => VArray len (<[key := child]> m)
  | _ => parent
  end.

(** [current[key] = v] once the loop of [set] has left the document. *)
Definition assign_outside `{Realm} `{Coercion}
  (current : any builtin) (key : string) (v : value) : result unit :=
  match current with
  | Data d => _ <-? js_put d key v; Ok tt
  | Builtin b => builtin_assign b key v
  end.

(** The loop of [set] from a member that the document does not hold
    itself: a primitive read off an array or a string, [undefined], or
    what the prototype chain gave.  What it does there does not show in
    the document; it returns or raises. *)
Fixpoint set_outside `{Realm} `{Coercion}
  (current : any builtin) (keys : list string) (v : value) : result unit :=
  match keys with
  | [] => Ok tt
  | [key] => assign_outside current key v
  | key :: rest =>
      next <-? js_get current key;
      set_outside next rest v
  end.

(** The member of an object, or the element of an array, that the tree
    holds under [key]. *)
Definition held (current : value) (key : string) : option value :=
  match current with
  | VObject m => m !! key
  | VArray _ m => if String.eqb key "length" then None else m !! key
  | _ => None
  end.

(** The loop of [set] in the document; the result is the document after
    the call. *)
Fixpoint set_loop `{Realm} `{Coercion}
  (current : value) (keys : list string) (v : value) : result value :=
  match keys with
  | [] => Ok current
  | [key] => js_put current key v
  | key :: rest =>
      match held current key with
      | Some child =>
          child' <-? set_loop child rest v;
          Ok (write_back current key child')
      | None =>
          next <-? js_get (Data current) key;
          _ <-? set_outside next rest v;
          Ok current
      end
  end.

(** [set(object, path, value)]; the result is the object after the
    assignment. *)
Definition set `{Realm} `{Coercion} (object : value) (p : path) (v : value)
  : result value :=
  set_loop object (newPath p) v.

End Utils.

(** ** Data of the player ([interfaces.ts]) *)

Module IconState.
(** [name] is [parts[0]] after the flags: a string, or [undefined]
    ([None]) when every token of the marker was a flag. *)
Record t := mk {
  name : option string;
  time : number;
  duration : number;
  params : list string;
  default : bool;
}.
End IconState.

Module Marker.
(** A marker of the document: comment [cm], start [tm], duration [dr]. *)
Record t := mk {
  cm : string;
  tm : number;
  dr : number;
}.
End Marker.

Module LottieData.
(** The animation document: its marker list (absent in legacy files) and
    the rest of the JSON tree. *)
Record t := mk {
  markers : option (list Marker.t);
  tree : value;
}.
Definition with_tree (v : value) (d : t) : t := mk (markers d) v.
End LottieData.

Inductive LottiePropertyType := color | slider | point | checkbox | feature.

#[export] Instance LottiePropertyType_eq_dec : EqDecision LottiePropertyType.
Proof. solve_decision. Defined.

Module LottieProperty.
Record t := mk {
  name : string;
  path : string;
  type : LottiePropertyType;
  value : JS.value;
}.
End LottieProperty.

Module IconProperties.
(** [IconProperties & LegacyIconProperties]; an absent member is
    [undefined].  [colors] is a [ColorMap] in the order of its keys. *)
Record t := mk {
  state : value;
  colors : option (list (string * value));
  stroke : value;
  scale : value;
  axisX : value;
  axisY : value;
}.
Definition empty : t := mk VUndefined None VUndefined VUndefined VUndefined VUndefined.
(** [delete properties.stroke], for an object that lets the member go
    (an object literal; a frozen or sealed one raises instead). *)
Definition delete_stroke (p : t) : t :=
  mk (state p) (colors p) VUndefined (scale p) (axisX p) (axisY p).
End IconProperties.

Module AnimationConfig.
(** What [init] passes to [lottie.loadAnimation] besides the container
    and the constant renderer settings. *)
Record t := mk {
  loop : bool;
  autoplay : bool;
  initialSegment : option (number * number);
  animationData : LottieData.t;
}.
End AnimationConfig.

(** ** Collaborators *)

(** The animation engine: [lottie.loadAnimation] and the members of
    [LottieAnimationInstance] the player uses.  A method that mutates the
    instance returns the instance after the call. *)
Module Lottie.

Class Renderer := {
instance : Type;
loadAnimation : AnimationConfig.t -> instance;
isLoaded : instance -> bool;
isPaused : instance -> bool;
currentFrame : instance -> number;
firstFrame : instance -> number;
totalFrames : instance -> number;
loop : instance -> bool;
set_loop : bool -> instance -> instance;
play : instance -> instance;
pause : instance -> instance;
stop : instance -> instance;
goToAndStop : number -> bool -> instance -> instance;
goToAndPlay : number -> instance -> instance;
setSegment : number -> number -> instance -> instance;
resetSegments : bool -> instance -> instance;
playSegments : number * number -> bool -> instance -> instance;
setDirection : number -> instance -> instance;
setSpeed : number -> instance -> instance;
getDuration : bool -> instance -> number;
renderFrame : instance -> instance;
}.

(** What the player relies on when it reads [isPaused], [currentFrame] and
  [firstFrame] back after a transport call. *)
Class RendererLaws `{Renderer} := {
play_isPaused i : isPaused (play i) = false;
play_currentFrame i : currentFrame (play i) = currentFrame i;
play_firstFrame i : firstFrame (play i) = firstFrame i;
pause_isPaused i : isPaused (pause i) = true;
pause_currentFrame i : currentFrame (pause i) = currentFrame i;
pause_firstFrame i : firstFrame (pause i) = firstFrame i;
setDirection_isPaused d i : isPaused (setDirection d i) = isPaused i;
setDirection_currentFrame d i : currentFrame (setDirection d i) = currentFrame i;
setDirection_firstFrame d i : firstFrame (setDirection d i) = firstFrame i;
goToAndStop_isPaused f b i : isPaused (goToAndStop f b i) = true;
goToAndStop_currentFrame f i : currentFrame (goToAndStop f true i) = f;
goToAndStop_firstFrame f b i : firstFrame (goToAndStop f b i) = firstFrame i;
setSegment_firstFrame a b i : firstFrame (setSegment a b i) = a;
}.

End Lottie.

(** [lottie.ts] and [parsers.ts].  The target of an update is the document
    tree (in the constructor) or [this._lottieInstance]; the result is the
    target after the writes.  The [_undefined] members are the same
    functions called while [this._lottieInstance] is still [undefined]. *)
Class LottieLib `{Lottie.Renderer} := {
  extractLottieProperties : LottieData.t -> bool -> option (list LottieProperty.t);
  updateLottieProperties_data :
    value -> list LottieProperty.t -> value -> result value;
  updateLottieProperties :
    Lottie.instance -> list LottieProperty.t -> value -> result Lottie.instance;
  updateLottieProperties_undefined :
    list LottieProperty.t -> value -> result unit;
  resetLottieProperties :
    Lottie.instance -> list LottieProperty.t -> result Lottie.instance;
  resetLottieProperties_undefined :
    list LottieProperty.t -> result unit;
  parseStroke : value -> value;
}.

(** ** The player ([player.ts]) *)

Module Player.

Definition DEFAULT_LOTTIE_WEB_OPTIONS_loop : bool := false.
Definition DEFAULT_LOTTIE_WEB_OPTIONS_autoplay : bool := false.

Definition SUPPORTED_STATE_FLAGS : list string := ["default"].

(** [SUPPORTED_STATE_FLAGS.includes(parts[0])] *)
Definition is_supported_flag (tok : string) : bool :=
  bool_decide (tok ∈ SUPPORTED_STATE_FLAGS).

Definition with_default (b : bool) (s : IconState.t) : IconState.t :=
  IconState.mk (IconState.name s) (IconState.time s) (IconState.duration s)
               (IconState.params s) b.

(** The [while] loop over the leading flags, with its [switch]. *)
Fixpoint read_flags (parts : list string) (newState : IconState.t)
  : result (list string * IconState.t) :=
  match parts with
  | [] => Ok ([], newState)
  | tok :: rest =>
      if is_supported_flag tok then
        if String.eqb tok "default"
        then read_flags rest (with_default true newState)
        else Throw (Error ("Unsupported state flag: " +:+ tok))
      else Ok (parts, newState)
  end.

(** [name === requested] for a parsed name and any value. *)
Definition name_is (name : option string) (requested : value) : bool :=
  match name, requested with
  | Some n, VStr s => String.eqb n s
  | None, VUndefined => true
  | _, _ => false
  end.

Definition name_value (name : option string) : value :=
  match name with
  | Some n => VStr n
  | None => VUndefined
  end.

(** [a === b] where one side is a string or [undefined]. *)
Definition strict_eq (a b : value) : bool :=
  match a, b with
  | VStr x, VStr y => String.eqb x y
  | VUndefined, VUndefined => true
  | VNull, VNull => true
  | VBool x, VBool y => Bool.eqb x y
  | VNum x, VNum y => num_eq x y
  | _, _ => false
  end.

(** [[state.time, state.time + state.duration + 1]] *)
Definition segment_of (s : IconState.t) : number * number :=
  (IconState.time s,
   num_add (num_add (IconState.time s) (IconState.duration s)) (num 1)).

Definition VOCABULARY : list value :=
  [VNum (num 1); VNum (num 2); VNum (num 3);
   VStr "light"; VStr "regular"; VStr "bold"].

(** The fields of a [Player] object, for a renderer whose instances have
    type [I].  [_container], [_colorsProxy] and [_eventHandlers] (DOM
    mounting, the proxy cache and the listener registry) are left out.
    [liveInstances] is not a field of the object: it counts the renderer
    instances this player has loaded and not yet destroyed. *)
Record object (I : Type) := mk {
  _iconData : LottieData.t;
  _initialProperties : IconProperties.t;
  _lottieInstance : option I;
  _ready : bool;
  _direction : number;
  _speed : number;
  _lottieProperties : option (list LottieProperty.t);
  _state : option IconState.t;
  _availableStates : list IconState.t;
  liveInstances : nat;
}.
Arguments mk {I}.
Arguments _iconData {I}.
Arguments _initialProperties {I}.
Arguments _lottieInstance {I}.
Arguments _ready {I}.
Arguments _direction {I}.
Arguments _speed {I}.
Arguments _lottieProperties {I}.
Arguments _state {I}.
Arguments _availableStates {I}.
Arguments liveInstances {I}.

Definition with_iconData {I} v (p : object I) : object I :=
  mk v (_initialProperties p) (_lottieInstance p) (_ready p) (_direction p)
    (_speed p) (_lottieProperties p) (_state p) (_availableStates p)
    (liveInstances p).
Definition with_initialProperties {I} v (p : object I) : object I :=
  mk (_iconData p) v (_lottieInstance p) (_ready p) (_direction p)
    (_speed p) (_lottieProperties p) (_state p) (_availableStates p)
    (liveInstances p).
Definition with_lottieInstance {I} v (p : object I) : object I :=
  mk (_iconData p) (_initialProperties p) v (_ready p) (_direction p)
    (_speed p) (_lottieProperties p) (_state p) (_availableStates p)
    (liveInstances p).
Definition with_ready {I} v (p : object I) : object I :=
  mk (_iconData p) (_initialProperties p) (_lottieInstance p) v
    (_direction p) (_speed p) (_lottieProperties p) (_state p)
    (_availableStates p) (liveInstances p).
Definition with_direction {I} v (p : object I) : object I :=
  mk (_iconData p) (_initialProperties p) (_lottieInstance p) (_ready p) v
    (_speed p) (_lottieProperties p) (_state p) (_availableStates p)
    (liveInstances p).
Definition with_speed {I} v (p : object I) : object I :=
  mk (_iconData p) (_initialProperties p) (_lottieInstance p) (_ready p)
    (_direction p) v (_lottieProperties p) (_state p) (_availableStates p)
    (liveInstances p).
Definition with_lottieProperties {I} v (p : object I) : object I :=
  mk (_iconData p) (_initialProperties p) (_lottieInstance p) (_ready p)
    (_direction p) (_speed p) v (_state p) (_availableStates p)
    (liveInstances p).
Definition with_state {I} v (p : object I) : object I :=
  mk (_iconData p) (_initialProperties p) (_lottieInstance p) (_ready p)
    (_direction p) (_speed p) (_lottieProperties p) v (_availableStates p)
    (liveInstances p).
Definition with_availableStates {I} v (p : object I) : object I :=
  mk (_iconData p) (_initialProperties p) (_lottieInstance p) (_ready p)
    (_direction p) (_speed p) (_lottieProperties p) (_state p) v
    (liveInstances p).
Definition with_liveInstances {I} v (p : object I) : object I :=
  mk (_iconData p) (_initialProperties p) (_lottieInstance p) (_ready p)
    (_direction p) (_speed p) (_lottieProperties p) (_state p)
    (_availableStates p) v.

Section WithCollaborators.
Context `{realm : Realm} `{coercion : Coercion}
        `{renderer : Lottie.Renderer} `{lib : !LottieLib}.

Definition t : Type := object Lottie.instance.

(** *** Methods as computations over the object

    A method maps the object to an outcome and the object after the
    call; a [throw] keeps the assignments made before it. *)
Definition M (A : Type) : Type := t -> result A * t.

Definition ret {A} (a : A) : M A := fun p => (Ok a, p).
Definition bind {A B} (m : M A) (k : A -> M B) : M B :=
  fun p => match m p with
           | (Ok a, p') => k a p'
           | (Throw e, p') => (Throw e, p')
           end.
Definition throw {A} (e : error) : M A := fun p => (Throw e, p).
Definition this : M t := fun p => (Ok p, p).
Definition assign (f : t -> t) : M unit := fun p => (Ok tt, f p).
Definition lift {A} (r : result A) : M A := fun p => (r, p).


#[local] Notation "x <- m ;; k" := (bind m (fun x => k))
  (at level 100, m at next level, right associativity).
#[local] Notation "m ;;; k" := (bind m (fun _ => k))
  (at level 100, right associativity).

Definition when (b : bool) (m : M unit) : M unit :=
  if b then m else ret tt.

(** *** The constructor: the state catalogue *)

(** The callback of [(data.markers || []).map(...)]: it builds the state
    of one marker and, as a side effect, may select it. *)
Definition parse_marker (c : Marker.t) : M IconState.t :=
  let parts := split ":" (Marker.cm c) in
  let newState := IconState.mk (Some "") (Marker.tm c) (Marker.dr c) [] false in
  flagged <- lift (read_flags parts newState);;
  let parts := flagged.1 in
  let newState :=
    IconState.mk (head parts) (IconState.time flagged.2)
                 (IconState.duration flagged.2) (tail parts)
                 (IconState.default flagged.2) in
  p <- this;;
  let requested := IconProperties.state (_initialProperties p) in
  (if name_is (IconState.name newState) requested
   then assign (with_state (Some newState))
   else if IconState.default newState && Utils.isNil requested
        then assign (with_state (Some newState))
        else ret tt);;;
  ret newState.

Fixpoint map_markers (cs : list Marker.t) : M (list IconState.t) :=
  match cs with
  | [] => ret []
  | c :: rest =>
      s <- parse_marker c;;
      ss <- map_markers rest;;
      ret (s :: ss)
  end.

(** [.filter((c) => c.duration > 0)] *)
Definition positive_duration (c : IconState.t) : bool :=
  num_gt (IconState.duration c) (num 0).

(** [states.filter(c => c.default)[0]] *)
Definition default_state (states : list IconState.t) : option IconState.t :=
  head (filter (fun c => IconState.default c) states).

(** [states.filter(c => c.name === state)[0]] *)
Definition state_named (state : value) (states : list IconState.t)
  : option IconState.t :=
  head (filter (fun c => name_is (IconState.name c) state) states).

(** The branch [if (this._availableStates.length)] of the constructor. *)
Definition modern_setup : M unit :=
  p <- this;;
  let stroke := IconProperties.stroke (_initialProperties p) in
  when (truthy stroke && negb (includes VOCABULARY stroke))
       (assign (with_initialProperties
                  (IconProperties.delete_stroke (_initialProperties p))));;;
  p <- this;;
  when (truthy (IconProperties.state (_initialProperties p))
        && negb (bool_decide (is_Some (_state p))))
       (assign (with_state (default_state (_availableStates p)))).

(** *** The constructor: legacy files (no markers) *)

Definition update_iconData (f : value -> result value) : M unit :=
  p <- this;;
  tree' <- lift (f (LottieData.tree (_iconData p)));;
  assign (with_iconData (LottieData.with_tree tree' (_iconData p))).

(** [state.toLowerCase()]: only a string has the method. *)
Definition call_toLowerCase (v : value) : result string :=
  match v with
  | VStr s => Ok (toLowerCase s)
  | _ => Throw (TypeError "toLowerCase is not a function")
  end.

Definition named (n : string) (props : list LottieProperty.t)
  : option LottieProperty.t :=
  head (filter (fun c => String.eqb (LottieProperty.name c) n) props).

(** [set(this._iconData, property.path, supplied * (property.value / 50))] *)
Definition scale_against_baseline (property : LottieProperty.t) (supplied : value)
  : M unit :=
  let ratio := js_div (LottieProperty.value property) (VNum (num 50)) in
  let v := js_mul supplied ratio in
  update_iconData
    (fun tr => Utils.set tr (Utils.PathString (LottieProperty.path property)) v).

Definition legacy_setup : M unit :=
  p <- this;;
  assign (with_iconData (Utils.deepClone (_iconData p)));;;
  p <- this;;
  let initial := _initialProperties p in
  match extractLottieProperties (_iconData p) false with
  | None => ret tt
  | Some properties =>
      when (truthy (IconProperties.state initial))
        (lower <- lift (call_toLowerCase (IconProperties.state initial));;
         let name := "state-" +:+ lower in
         update_iconData (fun tr =>
           updateLottieProperties_data tr
             (filter (fun c => startsWith (LottieProperty.name c) "state-")
                     properties)
             (VNum (num 0)));;;
         update_iconData (fun tr =>
           updateLottieProperties_data tr
             (filter (fun c => String.eqb (LottieProperty.name c) name)
                     properties)
             (VNum (num 1))));;;
      when (truthy (IconProperties.stroke initial))
        (match named "stroke" properties with
         | Some property =>
             scale_against_baseline property (IconProperties.stroke initial)
         | None => ret tt
         end);;;
      when (truthy (IconProperties.scale initial))
        (match named "scale" properties with
         | Some property =>
             scale_against_baseline property (IconProperties.scale initial)
         | None => ret tt
         end);;;
      when (truthy (IconProperties.axisX initial)
            && truthy (IconProperties.axisY initial))
        (match named "axis" properties with
         | Some property =>
             v0 <- lift (Utils.js_get (Data (LottieProperty.value property)) "0");;
             v1 <- lift (Utils.js_get (Data (LottieProperty.value property)) "1");;
             let ratio :=
               js_div (js_div (js_add (primitive v0) (primitive v1))
                              (VNum (num 2)))
                      (VNum (num 50)) in
             update_iconData (fun tr =>
               Utils.set tr
                 (Utils.PathString (LottieProperty.path property +:+ ".0"))
                 (js_mul (IconProperties.axisX initial) ratio));;;
             update_iconData (fun tr =>
               Utils.set tr
                 (Utils.PathString (LottieProperty.path property +:+ ".1"))
                 (js_mul (IconProperties.axisY initial) ratio))
         | None => ret tt
         end)
  end.

(** *** Customisable properties *)

Definition NOT_INITIALIZED : error := Error "Player not initialized".

(** The instance, or the exception every transport member starts with:
    [if (!this._lottieInstance) throw new Error('Player not initialized')] *)
Definition connected : M Lottie.instance :=
  p <- this;;
  match _lottieInstance p with
  | Some i => ret i
  | None => throw NOT_INITIALIZED
  end.

(** Applies a renderer method to the instance in place. *)
Definition on_instance (f : Lottie.instance -> Lottie.instance) : M unit :=
  assign (fun p => with_lottieInstance (option_map f (_lottieInstance p)) p).

Definition not_legacy_control (c : LottieProperty.t) : bool :=
  let n := LottieProperty.name c in
  negb (String.eqb n "scale") && negb (String.eqb n "axis")
  && negb (String.eqb n "stroke") && negb (startsWith n "state-").

(** [get lottieProperties()]: extracted on first use and memoised. *)
Definition get_lottieProperties : M (list LottieProperty.t) :=
  p <- this;;
  when (negb (bool_decide (is_Some (_lottieProperties p))))
       (let extracted := extractLottieProperties (_iconData p) true in
        assign (with_lottieProperties
                  (if bool_decide (_availableStates p = [])
                   then option_map (filter (fun c => not_legacy_control c)) extracted
                   else extracted)));;;
  p <- this;;
  ret (default [] (_lottieProperties p)).

(** [refresh()].  [this.triggerEvent('refresh')] finds nothing to call:
    the players of the embedding hold no listeners ([_eventHandlers]
    stays [{}]; the listener registry is modelled apart, in [Events]). *)
Definition refresh : M unit :=
  _ <- connected;;
  on_instance Lottie.renderFrame.

Definition is_color (c : LottieProperty.t) : bool :=
  bool_decide (LottieProperty.type c = color).

Definition is_stroke (c : LottieProperty.t) : bool :=
  String.eqb (LottieProperty.name c) "stroke"
  || String.eqb (LottieProperty.name c) "stroke-layers".

(** Runs [updateLottieProperties] or [resetLottieProperties] on
    [this._lottieInstance]. *)
Definition on_target
  (f : Lottie.instance -> result Lottie.instance) (g : result unit) : M unit :=
  p <- this;;
  match _lottieInstance p with
  | Some i =>
      i' <- lift (f i);;
      assign (with_lottieInstance (Some i'))
  | None => lift g
  end.

Fixpoint apply_colors (entries : list (string * value)) : M unit :=
  match entries with
  | [] => ret tt
  | (key, v) :: rest =>
      props <- get_lottieProperties;;
      let selected :=
        filter (fun c => is_color c && String.eqb (LottieProperty.name c) key)
               props in
      on_target (fun target => updateLottieProperties target selected v)
                (updateLottieProperties_undefined selected v);;;
      apply_colors rest
  end.

(** [set colors(colors: ColorMap | null)] *)
Definition set_colors (colors : option (list (string * value))) : M unit :=
  props <- get_lottieProperties;;
  let selected := filter (fun c => is_color c) props in
  on_target (fun target => resetLottieProperties target selected)
            (resetLottieProperties_undefined selected);;;
  match colors with
  | Some entries => apply_colors entries
  | None => ret tt
  end;;;
  refresh.

(** [set stroke(stroke: Stroke | null)] *)
Definition set_stroke (stroke : value) : M unit :=
  props <- get_lottieProperties;;
  let selected := filter (fun c => is_stroke c) props in
  on_target (fun target => resetLottieProperties target selected)
            (resetLottieProperties_undefined selected);;;
  let newStroke := parseStroke stroke in
  when (truthy newStroke)
       (props <- get_lottieProperties;;
        let selected := filter (fun c => is_stroke c) props in
        on_target (fun target => updateLottieProperties target selected newStroke)
                  (updateLottieProperties_undefined selected newStroke));;;
  refresh.

(** *** Life cycle *)

(** [Object.assign(deepClone(this._iconData), fixedParams)] *)
Definition assign_fixedParams (fixed : option (number * number))
  (d : LottieData.t) : LottieData.t :=
  match fixed with
  | Some (ip, op) =>
      LottieData.with_tree
        (Utils.write_back
           (Utils.write_back (LottieData.tree d) "ip" (VNum ip))
           "op" (VNum op))
        d
  | None => d
  end.

(** [ip] of the first state and [op] of the last one. *)
Definition fixedParams (states : list IconState.t) : option (number * number) :=
  match head states, last states with
  | Some firstState, Some lastState =>
      Some (IconState.time firstState, (segment_of lastState).2)
  | _, _ => None
  end.

Definition init : M unit :=
  p <- this;;
  match _lottieInstance p with
  | Some _ => throw (Error "Already connected player!")
  | None =>
      let config :=
        AnimationConfig.mk
          DEFAULT_LOTTIE_WEB_OPTIONS_loop
          DEFAULT_LOTTIE_WEB_OPTIONS_autoplay
          (option_map segment_of (_state p))
          (assign_fixedParams (fixedParams (_availableStates p))
                              (Utils.deepClone (_iconData p))) in
      assign (with_lottieInstance (Some (Lottie.loadAnimation config)));;;
      assign (fun p => with_liveInstances (S (liveInstances p)) p);;;
      match IconProperties.colors (_initialProperties p) with
      | Some colors => set_colors (Some colors)
      | None => ret tt
      end;;;
      when (truthy (IconProperties.stroke (_initialProperties p)))
           (set_stroke (IconProperties.stroke (_initialProperties p)));;;
      (* The listeners registered here run later, on renderer events:
         three forward to the listener registry, [config_ready] sets
         [_ready] when the instance was not loaded yet.
         [this.triggerEvent('ready')] finds nothing to call: the players
         of the embedding hold no listeners. *)
      i <- connected;;
      when (Lottie.isLoaded i) (assign (with_ready true))
  end.

Definition destroy : M unit :=
  p <- this;;
  match _lottieInstance p with
  | None => throw (Error "Not connected player!")
  | Some _ =>
      assign (with_ready false);;;
      assign (fun p => with_liveInstances (pred (liveInstances p)) p);;;
      assign (with_lottieInstance None);;;
      assign (with_lottieProperties None)
  end.


(** *** Transport *)

Definition play : M unit :=
  _ <- connected;;
  p <- this;;
  on_instance (Lottie.setDirection (_direction p));;;
  on_instance Lottie.play.

Definition playFromStart : M unit :=
  _ <- connected;;
  on_instance (Lottie.setDirection (num 1));;;
  p <- this;;
  match _state p with
  | Some s => on_instance (Lottie.playSegments (segment_of s) true)
  | None => on_instance (Lottie.goToAndPlay (num 0))
  end.

Definition pause : M unit :=
  _ <- connected;;
  on_instance Lottie.pause.

Definition stop : M unit :=
  _ <- connected;;
  on_instance Lottie.stop.

Definition seek (frame : number) : M unit :=
  _ <- connected;;
  on_instance (Lottie.goToAndStop frame true).

Definition get_frameCount : M number :=
  i <- connected;;
  ret (num_sub (Lottie.getDuration true i) (num 1)).

Definition seekToStart : M unit := seek (num 0).

Definition seekToEnd : M unit :=
  count <- get_frameCount;;
  seek (num_max (num 0) count).

Definition switchSegment (segment : option (number * number)) : M unit :=
  _ <- connected;;
  match segment with
  | Some (a, b) => on_instance (Lottie.setSegment a b)
  | None => on_instance (Lottie.resetSegments true)
  end;;;
  on_instance (Lottie.goToAndStop (num 0) true).

Definition get_playing : M bool :=
  i <- connected;;
  ret (negb (Lottie.isPaused i)).

(** [get state()]: the name of the selected state, or [''] *)
Definition get_state : M value :=
  p <- this;;
  match _state p with
  | Some s => ret (name_value (IconState.name s))
  | None => ret (VStr "")
  end.

(** [set state(state: string | null)] *)
Definition set_state (state : value) : M unit :=
  _ <- connected;;
  current <- get_state;;
  if strict_eq state current then ret tt
  else
    isPlaying <- get_playing;;
    assign (with_state None);;;
    (if Utils.isNil state then
       assign (fun p => with_state (default_state (_availableStates p)) p)
     else
       when (truthy state)
         (assign (fun p => with_state (state_named state (_availableStates p)) p);;;
          p <- this;;
          when (negb (bool_decide (is_Some (_state p))))
               (assign (with_state (default_state (_availableStates p))))));;;
    p <- this;;
    switchSegment (option_map segment_of (_state p));;;
    when isPlaying (pause;;; play).

Definition set_speed (speed : number) : M unit :=
  assign (with_speed speed);;;
  on_instance (Lottie.setSpeed speed).

Definition get_speed : M number := p <- this;; ret (_speed p).

Definition set_direction (direction : number) : M unit :=
  _ <- connected;;
  assign (with_direction direction);;;
  on_instance (Lottie.setDirection direction).

Definition get_direction : M number := p <- this;; ret (_direction p).

Definition set_loop (loop : bool) : M unit :=
  _ <- connected;;
  on_instance (Lottie.set_loop loop).

Definition get_loop : M bool :=
  i <- connected;;
  ret (Lottie.loop i).

(** [set frame(frame: number)] *)
Definition set_frame (frame : number) : M unit :=
  count <- get_frameCount;;
  seek (num_max (num 0) (num_min count frame)).

Definition get_frame : M number :=
  i <- connected;;
  ret (Lottie.currentFrame i).

Definition get_availableStates : M (list IconState.t) :=
  p <- this;; ret (_availableStates p).

Definition get_ready : M bool := p <- this;; ret (_ready p).

Definition get_segment : M (number * number) :=
  i <- connected;;
  ret (Lottie.firstFrame i, num_add (Lottie.firstFrame i) (Lottie.totalFrames i)).

Definition get_duration : M number :=
  i <- connected;;
  ret (Lottie.getDuration false i).

(** [a || null] *)
Definition or_null (v : value) : value := if truthy v then v else VNull.

(** [set properties(properties: IconProperties)] *)
Definition set_properties (properties : IconProperties.t) : M unit :=
  set_colors (IconProperties.colors properties);;;
  set_stroke (or_null (IconProperties.stroke properties));;;
  set_state (or_null (IconProperties.state properties)).


(** *** Construction *)

(** [options: { autoInit?: boolean } = { autoInit: true }]: [None] is an
    omitted argument, [Some None] an object without the member. *)
Definition autoInit (options : option (option bool)) : bool :=
  match options with
  | None => true
  | Some None => false
  | Some (Some b) => b
  end.

Definition constructor (data : LottieData.t)
  (properties : option IconProperties.t) (options : option (option bool))
  : M unit :=
  assign (with_iconData data);;;
  assign (with_initialProperties (default IconProperties.empty properties));;;
  states <- map_markers (default [] (LottieData.markers data));;
  assign (with_availableStates (filter (fun c => positive_duration c) states));;;
  p <- this;;
  when (negb (bool_decide (_availableStates p = []))) modern_setup;;;
  p <- this;;
  when (bool_decide (_availableStates p = [])) legacy_setup;;;
  when (autoInit options) init.

(** The object before the constructor body runs (field initialisers). *)
Definition blank (data : LottieData.t) : t :=
  mk data IconProperties.empty None false (num 1) (num 1) None None [] 0.

(** [new Player(container, data, properties, options)]: the object, or
    the exception the constructor raised. *)
Definition new (data : LottieData.t)
  (properties : option IconProperties.t) (options : option (option bool))
  : result t :=
  match constructor data properties options (blank data) with
  | (Ok _, p) => Ok p
  | (Throw e, _) => Throw e
  end.

(** *** The public members as a command language *)

Inductive call :=
| Init
| Destroy
| Play
| PlayFromStart
| Pause
| Stop
| Seek (frame : number)
| SeekToStart
| SeekToEnd
| SwitchSegment (segment : option (number * number))
| SetProperties (properties : IconProperties.t)
| SetColors (colors : option (list (string * value)))
| SetStroke (stroke : value)
| SetState (state : value)
| SetSpeed (speed : number)
| SetDirection (direction : number)
| SetLoop (loop : bool)
| SetFrame (frame : number).

Definition perform (c : call) : M unit :=
  match c with
  | Init => init
  | Destroy => destroy
  | Play => play
  | PlayFromStart => playFromStart
  | Pause => pause
  | Stop => stop
  | Seek frame => seek frame
  | SeekToStart => seekToStart
  | SeekToEnd => seekToEnd
  | SwitchSegment segment => switchSegment segment
  | SetProperties properties => set_properties properties
  | SetColors colors => set_colors colors
  | SetStroke stroke => set_stroke stroke
  | SetState state => set_state state
  | SetSpeed speed => set_speed speed
  | SetDirection direction => set_direction direction
  | SetLoop loop => set_loop loop
  | SetFrame frame => set_frame frame
  end.

(** The object after a sequence of calls, whether they return or
    throw (the caller catches). *)
Fixpoint perform_all (cs : list call) (p : t) : t :=
  match cs with
  | [] => p
  | c :: rest => perform_all rest (perform c p).2
  end.

End WithCollaborators.

Arguments t {_}.
Arguments M {_} A.

End Player.

(** ** Reference collaborators

    Concrete implementations of the interfaces, used to run the player on
    examples. *)

Module Reference.

(** Coercions that are exact on [undefined], [null], booleans and numbers
    ([ToNumber]) and on strings ([ToString]).  The examples convert no
    other value; those answer [NaN] and the empty string here. *)
Definition to_number (v : value) : number :=
  match v with
  | VNum n => n
  | VNull => num 0
  | VBool true => num 1
  | VBool false => num 0
  | _ => NaN
  end.

Definition to_string (v : value) : string :=
  match v with
  | VStr s => s
  | VUndefined => "undefined"
  | VNull => "null"
  | VBool true => "true"
  | VBool false => "false"
  | _ => ""
  end.

#[export] Instance coercion : Coercion :=
  {| ToNumber := to_number; ToString := to_string;
     ToNumber_VNum := fun _ => eq_refl; ToString_VStr := fun _ => eq_refl |}.

(** A realm in the manner of an engine, with some of the members of the
    standard prototypes: a function is known by its name. *)
Inductive native :=
| Object_prototype
| Array_prototype
| Function_ (name : string).

Definition object_methods : list string :=
  ["constructor"; "hasOwnProperty"; "isPrototypeOf"; "propertyIsEnumerable";
   "toLocaleString"; "toString"; "valueOf"].

Definition array_methods : list string :=
  ["concat"; "filter"; "forEach"; "includes"; "indexOf"; "join"; "map";
   "pop"; "push"; "shift"; "slice"; "splice"].

Definition function_methods : list string := ["apply"; "bind"; "call"].

Definition method_of (names : list string) (key : string)
  : option (any native) :=
  if existsb (String.eqb key) names then Some (Builtin (Function_ key))
  else None.

Definition native_member (b : native) (key : string) : option (any native) :=
  match b with
  | Object_prototype =>
      if String.eqb key "__proto__" then Some (Data VNull)
      else method_of object_methods key
  | Array_prototype =>
      if String.eqb key "length" then Some (Data (VNum (num 0)))
      else if String.eqb key "__proto__" then Some (Builtin Object_prototype)
      else method_of (array_methods ++ object_methods)%list key
  | Function_ name =>
      if String.eqb key "name" then Some (Data (VStr name))
      else if String.eqb key "length" then Some (Data (VNum (num 0)))
      else if String.eqb key "__proto__"
      then Some (Builtin (Function_ EmptyString))
      else method_of (function_methods ++ object_methods)%list key
  end.

Definition native_inherited (v : value) (key : string) : option (any native) :=
  match v with
  | VUndefined | VNull => None
  | VObject _ =>
      if String.eqb key "__proto__" then Some (Builtin Object_prototype)
      else method_of object_methods key
  | VArray _ _ =>
      if String.eqb key "__proto__" then Some (Builtin Array_prototype)
      else method_of (array_methods ++ object_methods)%list key
  | VBool _ | VNum _ | VStr _ => method_of object_methods key
  end.

Definition native_primitive (b : native) : value :=
  match b with
  | Object_prototype => VStr "[object Object]"
  | Array_prototype => VStr EmptyString
  | Function_ name => VStr ("function " +:+ name +:+ "() { [native code] }")
  end.

(** [__proto__] is the one setter on the chains; the name and the length
    of a function are read-only. *)
Definition native_inherited_assign (receiver : value) (key : string) (v : value)
  : option (result unit) :=
  if String.eqb key "__proto__" then Some (Ok tt) else None.

Definition native_assign (b : native) (key : string) (v : value) : result unit :=
  match b with
  | Function_ _ =>
      if String.eqb key "name" || String.eqb key "length"
      then Throw (TypeError "Cannot assign to read only property")
      else Ok tt
  | _ => Ok tt
  end.

#[export] Instance realm : Realm :=
  {| builtin := native;
     builtin_is_object := fun b =>
       match b with Function_ _ => false | _ => true end;
     builtin_member := native_member;
     inherited := native_inherited;
     builtin_primitive := native_primitive;
     inherited_assign := native_inherited_assign;
     builtin_assign := native_assign |}.

(** An animation item in the manner of lottie-web: the current segment
    ([firstFrame], [totalFrames]), the frame relative to it, and the
    whole range of the document for [resetSegments]. *)
Record item := {
  item_paused : bool;
  item_frame : number;
  item_first : number;
  item_total : number;
  item_loop : bool;
  item_direction : number;
  item_speed : number;
  item_ip : number;
  item_op : number;
  item_frameRate : number;
}.

Definition member_number (key : string) (tree : value) : number :=
  match Utils.get tree (Utils.PathArray [key]) VUndefined with
  | Ok (Data (VNum n)) => n
  | _ => NaN
  end.

Definition floor (n : number) : number :=
  match n with
  | Fin q => num (Qfloor q)
  | NaN => NaN
  end.

Definition load (config : AnimationConfig.t) : item :=
  let tree := LottieData.tree (AnimationConfig.animationData config) in
  let ip := member_number "ip" tree in
  let op := member_number "op" tree in
  let seg := default (ip, op) (AnimationConfig.initialSegment config) in
  {| item_paused := negb (AnimationConfig.autoplay config);
     item_frame := num 0;
     item_first := seg.1;
     item_total := floor (num_sub seg.2 seg.1);
     item_loop := AnimationConfig.loop config;
     item_direction := num 1;
     item_speed := num 1;
     item_ip := ip;
     item_op := op;
     item_frameRate := member_number "fr" tree |}.

Definition with_paused b i :=
  {| item_paused := b; item_frame := item_frame i; item_first := item_first i;
     item_total := item_total i; item_loop := item_loop i;
     item_direction := item_direction i; item_speed := item_speed i;
     item_ip := item_ip i; item_op := item_op i;
     item_frameRate := item_frameRate i |}.
Definition with_frame f i :=
  {| item_paused := item_paused i; item_frame := f; item_first := item_first i;
     item_total := item_total i; item_loop := item_loop i;
     item_direction := item_direction i; item_speed := item_speed i;
     item_ip := item_ip i; item_op := item_op i;
     item_frameRate := item_frameRate i |}.
Definition with_segment a b i :=
  {| item_paused := item_paused i; item_frame := item_frame i; item_first := a;
     item_total := num_sub b a; item_loop := item_loop i;
     item_direction := item_direction i; item_speed := item_speed i;
     item_ip := item_ip i; item_op := item_op i;
     item_frameRate := item_frameRate i |}.
Definition with_loop l i :=
  {| item_paused := item_paused i; item_frame := item_frame i;
     item_first := item_first i; item_total := item_total i; item_loop := l;
     item_direction := item_direction i; item_speed := item_speed i;
     item_ip := item_ip i; item_op := item_op i;
     item_frameRate := item_frameRate i |}.
Definition with_direction d i :=
  {| item_paused := item_paused i; item_frame := item_frame i;
     item_first := item_first i; item_total := item_total i;
     item_loop := item_loop i; item_direction := d; item_speed := item_speed i;
     item_ip := item_ip i; item_op := item_op i;
     item_frameRate := item_frameRate i |}.
Definition with_speed s i :=
  {| item_paused := item_paused i; item_frame := item_frame i;
     item_first := item_first i; item_total := item_total i;
     item_loop := item_loop i; item_direction := item_direction i;
     item_speed := s; item_ip := item_ip i; item_op := item_op i;
     item_frameRate := item_frameRate i |}.

#[export] Instance renderer : Lottie.Renderer :=
  {| Lottie.instance := item;
     Lottie.loadAnimation := load;
     Lottie.isLoaded := fun _ => true;
     Lottie.isPaused := item_paused;
     Lottie.currentFrame := item_frame;
     Lottie.firstFrame := item_first;
     Lottie.totalFrames := item_total;
     Lottie.loop := item_loop;
     Lottie.set_loop := with_loop;
     Lottie.play := with_paused false;
     Lottie.pause := with_paused true;
     Lottie.stop := fun i => with_paused true (with_frame (num 0) i);
     Lottie.goToAndStop := fun f _ i => with_paused true (with_frame f i);
     Lottie.goToAndPlay := fun f i => with_paused false (with_frame f i);
     Lottie.setSegment := with_segment;
     Lottie.resetSegments := fun _ i => with_segment (item_ip i) (item_op i) i;
     Lottie.playSegments := fun seg _ i =>
       with_paused false (with_frame (num 0) (with_segment seg.1 seg.2 i));
     Lottie.setDirection := with_direction;
     Lottie.setSpeed := with_speed;
     Lottie.getDuration := fun inFrames i =>
       if inFrames then item_total i
       else num_div (item_total i) (item_frameRate i);
     Lottie.renderFrame := fun i => i |}.

#[export] Instance renderer_laws : Lottie.RendererLaws.
Proof. split; reflexivity. Qed.

(** Modelled from the spec: [parseStroke] of [parsers.ts], which is not
    among the embedded sources.  The presets 1, 2, 3 and their synonyms
    [light], [regular], [bold] are accepted; any other value is rejected
    (treated as absent). *)
Definition parse_stroke (v : value) : value :=
  if includes [VNum (num 1); VStr "light"] v then VNum (num 1)
  else if includes [VNum (num 2); VStr "regular"] v then VNum (num 2)
  else if includes [VNum (num 3); VStr "bold"] v then VNum (num 3)
  else VUndefined.

(** Modelled from the spec: [updateLottieProperties] of [lottie.ts] on a
    document, for the values that pass through unchanged: the value is
    written at the path of every selected property. *)
Fixpoint update_data (target : value) (props : list LottieProperty.t) (v : value)
  : result value :=
  match props with
  | [] => Ok target
  | c :: rest =>
      target' <-? Utils.set target (Utils.PathString (LottieProperty.path c)) v;
      update_data target' rest v
  end.

(** A library whose extractor finds a given catalogue; the renderer above
    has no property bags, so updates of an instance leave it as it is. *)
Definition lib (catalogue : list LottieProperty.t) : LottieLib :=
  {| extractLottieProperties := fun _ _ => Some catalogue;
     updateLottieProperties_data := update_data;
     updateLottieProperties := fun i _ _ => Ok i;
     updateLottieProperties_undefined := fun _ _ => Ok tt;
     resetLottieProperties := fun i _ => Ok i;
     resetLottieProperties_undefined := fun _ => Ok tt;
     parseStroke := parse_stroke |}.

End Reference.

(** ** Vocabulary of the properties *)

Module PathSpec.
Import Utils.

Section WithRealm.
Context `{realm : Realm}.

(** [member node key v]: [node] is an indexable structure, [key] is
    among its keys, its own or those of its prototype chain, and [v] is
    what it has under it. *)
Definition member (node : any builtin) (key : string) (v : any builtin) : Prop :=
  isObjectLike node = true /\ lookup node key = Some v.

(** [reaches object keys node]: following [keys] from [object], every
    key being present, ends at [node]. *)
Inductive reaches : any builtin -> list string -> any builtin -> Prop :=
| reaches_here object : reaches object [] object
| reaches_step object key v keys node :
    member object key v -> reaches v keys node ->
    reaches object (key :: keys) node.


End WithRealm.

End PathSpec.

Module PlayerSpec.
Import Player.

(** The state a marker stands for: what the callback of the constructor
    returns for it. *)
Definition state_of_marker (c : Marker.t) : IconState.t :=
  let blank := IconState.mk (Some "") (Marker.tm c) (Marker.dr c) [] false in
  match read_flags (split ":" (Marker.cm c)) blank with
  | Ok (parts, flagged) =>
      IconState.mk (head parts) (IconState.time flagged)
                   (IconState.duration flagged) (tail parts)
                   (IconState.default flagged)
  | Throw _ => blank
  end.

(** The catalogue of a document: the states of its markers of positive
    duration, in the order of the markers. *)
Definition catalogue_of (data : LottieData.t) : list IconState.t :=
  filter (fun c => positive_duration c)
         (map state_of_marker (default [] (LottieData.markers data))).

(** The selection after the callback has seen state [s]. *)
Definition select (requested : value) (s : IconState.t)
  (current : option IconState.t) : option IconState.t :=
  if name_is (IconState.name s) requested then Some s
  else if IconState.default s && Utils.isNil requested then Some s
  else current.

Definition selection (requested : value) (states : list IconState.t)
  (current : option IconState.t) : option IconState.t :=
  fold_left (fun cur s => select requested s cur) states current.

(** Resolution of a requested state against the catalogue: exact match,
    else the entry flagged default, for a name; the entry flagged default
    for [null] and [undefined]. *)
Definition resolves (requested : value) (catalogue : list IconState.t)
  (s : IconState.t) : Prop :=
  (Utils.isNil requested = true /\ default_state catalogue = Some s)
  \/ (truthy requested = true /\ state_named requested catalogue = Some s)
  \/ (truthy requested = true /\ state_named requested catalogue = None
      /\ default_state catalogue = Some s).

(** The state the setter resolves a request to. *)
Definition resolved (requested : value) (catalogue : list IconState.t)
  : option IconState.t :=
  if Utils.isNil requested then default_state catalogue
  else if truthy requested then
    match state_named requested catalogue with
    | Some s => Some s
    | None => default_state catalogue
    end
  else None.

Section WithRenderer.
Context `{renderer : Lottie.Renderer}.

(** A computation leaves an observation of the object unchanged,
    whether it returns or throws. *)
Definition preserves {A X} (f : Player.t -> X) (m : Player.M A) : Prop :=
  forall p, f (m p).2 = f p.

(** The player holds an instance exactly when one is live. *)
Definition connected_once (p : Player.t) : Prop :=
  liveInstances p = match _lottieInstance p with
                    | Some _ => 1%nat
                    | None => 0%nat
                    end.

(** Whether there is an instance, and how many are live. *)
Definition connection (p : Player.t) : bool * nat :=
  (bool_decide (is_Some (_lottieInstance p)), liveInstances p).

(** An observation of the object that does not look at the memoised
    property catalogue, nor at what the instance it holds is. *)
Definition transport_blind {X} (f : Player.t -> X) : Prop :=
  (forall v p, f (with_lottieProperties v p) = f p)
  /\ (forall i i' p, _lottieInstance p = Some i ->
                     f (with_lottieInstance (Some i') p) = f p).

(** The object once the catalogue is stored, before the two branches. *)
Definition parsed (data : LottieData.t) (properties : option IconProperties.t)
  (p0 : Player.t) : Player.t :=
  let initial := default IconProperties.empty properties in
  with_availableStates (catalogue_of data)
    (with_state
       (selection (IconProperties.state initial)
                  (map state_of_marker (default [] (LottieData.markers data)))
                  (_state p0))
       (with_initialProperties initial (with_iconData data p0))).

End WithRenderer.

Section WithCollaborators.
Context `{realm : Realm} `{coercion : Coercion}
        `{renderer : Lottie.Renderer} `{lib : !LottieLib}.

#[local] Notation "x <- m ;; k" := (bind m (fun x => k))
  (at level 100, m at next level, right associativity).
#[local] Notation "m ;;; k" := (bind m (fun _ => k))
  (at level 100, right associativity).

(** What the constructor does after the catalogue is stored. *)
Definition branches (options : option (option bool)) : M unit :=
  p <- this;;
  when (negb (bool_decide (_availableStates p = []))) modern_setup;;;
  p <- this;;
  when (bool_decide (_availableStates p = [])) legacy_setup;;;
  when (autoInit options) init.

End WithCollaborators.

End PlayerSpec.

(** ** Examples *)

Module Examples.

(** A document with one layer. *)
Definition sample_document : value :=
  object_of
    [("layers",
      array_of [object_of [("nm", VStr "body"); ("op", VNum (num 60))]])].

Definition timeline (ip op : Z) : list (string * value) :=
  [("ip", VNum (num ip)); ("op", VNum (num op)); ("fr", VNum (num 60))].

(** An icon with three states, the second one flagged default. *)
Definition states_document : LottieData.t :=
  LottieData.mk
    (Some [Marker.mk "in-reveal" (num 0) (num 60);
           Marker.mk "default:hover-spending:fast" (num 70) (num 50);
           Marker.mk "loop-spin" (num 130) (num 10)])
    (object_of (timeline 0 150)).

Definition hover_spending : IconState.t :=
  IconState.mk (Some "hover-spending") (num 70) (num 50) ["fast"] true.

Definition in_reveal : IconState.t :=
  IconState.mk (Some "in-reveal") (num 0) (num 60) [] false.

(** An icon whose only marker starts with a token that is no flag. *)
Definition bogus_marker : Marker.t := Marker.mk "bogus:foo" (num 0) (num 10).

Definition bogus_document : LottieData.t :=
  LottieData.mk (Some [bogus_marker]) (object_of (timeline 0 150)).

Definition bogus : IconState.t :=
  IconState.mk (Some "bogus") (num 0) (num 10) ["foo"] false.

(** An icon whose only marker, flagged default, has no duration. *)
Definition zero_duration_document : LottieData.t :=
  LottieData.mk (Some [Marker.mk "default:intro" (num 0) (num 0)])
                (object_of (timeline 0 150)).

(** A legacy icon: no markers, and a stroke control whose baseline is 50. *)
Definition stroke_path : string := "layers.0.ef.0.ef.0.v.k".

Definition legacy_document : LottieData.t :=
  LottieData.mk None
    (object_of
       (timeline 0 150 ++
        [("layers",
          array_of
            [object_of
               [("ef",
                 array_of
                   [object_of
                      [("nm", VStr "stroke");
                       ("ef",
                        array_of
                          [object_of
                             [("v", object_of [("k", VNum (num 50))])]])]])]])])).

Definition legacy_catalogue : list LottieProperty.t :=
  [LottieProperty.mk "stroke" stroke_path slider (VNum (num 50))].


(** [{ autoInit: false }] *)
Definition manual : option (option bool) := Some (Some false).

Definition only_stroke (v : value) : IconProperties.t :=
  IconProperties.mk VUndefined None v VUndefined VUndefined VUndefined.

Definition no_extras : LottieLib (H := Reference.renderer) := Reference.lib [].

Definition legacy_lib : LottieLib (H := Reference.renderer) :=
  Reference.lib legacy_catalogue.

End Examples.

(** ** Further members and vocabulary *)

(** ** The listener registry ([player.ts]) *)

Module Events.

(** [EventName] *)
Inductive EventName := ready | complete | frame | refresh.

#[export] Instance EventName_eq_dec : EqDecision EventName.
Proof. solve_decision. Defined.

Section WithHandlers.
(** Handlers are functions; [===] on them is identity, which the type
    [handler] decides. *)
Context {handler : Type} `{EqDecision handler}.

(** What [this._eventHandlers[name]] holds: nothing yet, [null], or an
    array of handlers. *)
Inductive slot :=
| Unset
| Null
| Handlers (callbacks : list handler).

(** [this._eventHandlers], indexed by the event names. *)
Definition registry : Type := EventName -> slot.

(** [_eventHandlers: any = {}] *)
Definition empty : registry := fun _ => Unset.

Definition store (name : EventName) (s : slot) (reg : registry) : registry :=
  fun n => if decide (n = name) then s else reg n.

(** The handlers of a slot; a slot that is not an array has none. *)
Definition callbacks_of (s : slot) : list handler :=
  match s with
  | Handlers l => l
  | _ => []
  end.

(** [addEventListener(name, handler)]: the registry after the call; the
    function it returns is [unsubscribe]. *)
Definition addEventListener (name : EventName) (h : handler) (reg : registry)
  : registry :=
  let reg1 :=
    match reg name with
    | Handlers _ => reg
    | _ => store name (Handlers []) reg
    end in
  store name (Handlers (callbacks_of (reg1 name) ++ [h])%list) reg1.

(** [array.splice(i, 1)] *)
Definition splice1 (i : nat) (l : list handler) : list handler :=
  (take i l ++ drop (S i) l)%list.

(** The [while (i < len)] loop of [removeEventListener]; [None] when the
    fuel does not reach the end of the loop. *)
Fixpoint remove_loop (fuel : nat) (h : handler) (i len : Z) (l : list handler)
  : option (list handler) :=
  match fuel with
  | O => None
  | S fuel' =>
      if (i <? len)%Z then
        if bool_decide (l !! Z.to_nat i = Some h)
        then remove_loop fuel' h (i - 1 + 1) (len - 1) (splice1 (Z.to_nat i) l)
        else remove_loop fuel' h (i + 1) len l
      else Some l
  end.

(** [removeEventListener(name, handler?)]; an omitted handler is [None]. *)
Definition removeEventListener (name : EventName) (h : option handler)
  (reg : registry) : option registry :=
  match h with
  | None => Some (store name Null reg)
  | Some h =>
      match reg name with
      | Handlers l =>
          l' ← remove_loop (S (length l)) h 0 (Z.of_nat (length l)) l;
          Some (store name (match l' with
                            | [] => Null
                            | _ => Handlers l'
                            end) reg)
      | _ => Some reg
      end
  end.

(** No event holds an empty array of handlers. *)
Definition no_empty_array (reg : registry) : Prop :=
  forall name, reg name <> Handlers [].

(** The function [addEventListener(name, handler)] returns. *)
Definition unsubscribe (name : EventName) (h : handler) (reg : registry)
  : option registry :=
  removeEventListener name (Some h) reg.

(** The two public members as commands. *)
Inductive call :=
| Add (name : EventName) (h : handler)
| Remove (name : EventName) (h : option handler).

Definition perform (c : call) (reg : registry) : option registry :=
  match c with
  | Add name h => Some (addEventListener name h reg)
  | Remove name h => removeEventListener name h reg
  end.

Fixpoint perform_all (cs : list call) (reg : registry) : option registry :=
  match cs with
  | [] => Some reg
  | c :: rest => reg' ← perform c reg; perform_all rest reg'
  end.

End WithHandlers.

Arguments slot handler : clear implicits.
Arguments registry handler : clear implicits.

End Events.

(** ** The colour proxy ([player.ts], [createColorsProxy]) *)

Module ColorsProxy.
Import Player.

Section WithCollaborators.
Context `{realm : Realm} `{coercion : Coercion}
        `{renderer : Lottie.Renderer} `{lib : !LottieLib}.

(** The proxy is modelled for property keys that are strings. *)

(** The [ownKeys] trap: the list it returns, one name for each colour
    property, before the engine checks that list (it refuses one that
    holds a name twice). *)
Definition ownKeys : M (list string) :=
  bind get_lottieProperties (fun props =>
  ret (map LottieProperty.name (filter (fun c => is_color c) props))).

(** The loop of the [has] trap. *)
Fixpoint has_loop (property : string) (props : list LottieProperty.t) : bool :=
  match props with
  | [] => false
  | current :: rest =>
      if is_color current && String.eqb property (LottieProperty.name current)
      then true
      else has_loop property rest
  end.

(** The [has] trap: [property in player.colors]. *)
Definition has (property : string) : M bool :=
  bind get_lottieProperties (fun props => ret (has_loop property props)).

End WithCollaborators.
End ColorsProxy.

Module TransportSpec.
Import Player.

(** The members that start with
    [if (!this._lottieInstance) throw new Error('Player not initialized')]. *)
Definition needs_instance (c : call) : bool :=
  match c with
  | Play | PlayFromStart | Pause | Stop | Seek _ | SeekToStart | SeekToEnd
  | SwitchSegment _ | SetState _ | SetDirection _ | SetLoop _ | SetFrame _ => true
  | Init | Destroy | SetProperties _ | SetColors _ | SetStroke _ | SetSpeed _ =>
      false
  end.

(** The members that only drive the renderer. *)
Definition only_transport (c : call) : bool :=
  match c with
  | Play | PlayFromStart | Pause | Stop | Seek _ | SeekToStart | SeekToEnd
  | SwitchSegment _ | SetLoop _ | SetFrame _ => true
  | _ => false
  end.

(** The members that call [this.refresh()] before they return. *)
Definition refreshes (c : call) : bool :=
  match c with
  | SetProperties _ | SetColors _ | SetStroke _ => true
  | _ => false
  end.

Section WithRenderer.
Context `{renderer : Lottie.Renderer}.

(** A computation keeps a property of the object, whether it returns or
    throws. *)
Definition invariant {A} (I : Player.t -> Prop) (m : Player.M A) : Prop :=
  forall p, I p -> I (m p).2.

(** In a document without states, the memoised catalogue holds none of
    the legacy controls. *)
Definition legacy_controls_hidden (p : Player.t) : Prop :=
  _availableStates p = []
  /\ forall l, _lottieProperties p = Some l ->
               Forall (fun c => not_legacy_control c = true) l.

(** The object with its instance put aside. *)
Definition unplugged (p : Player.t) : Player.t := with_lottieInstance None p.

(** A computation runs the same whatever [_speed] holds, and leaves it
    as it was. *)
Definition ignores_speed {A} (m : Player.M A) : Prop :=
  forall v p, m (with_speed v p) = ((m p).1, with_speed v (m p).2).

(** What no public member assigns. *)
Definition construction (p : Player.t)
  : list IconState.t * LottieData.t * IconProperties.t :=
  (_availableStates p, _iconData p, _initialProperties p).

End WithRenderer.
End TransportSpec.

Module MoreExamples.
Import Examples.

(** Listeners are named by numbers. *)
Definition two_listeners : Events.registry nat :=
  Events.addEventListener Events.complete 1%nat
    (Events.addEventListener Events.complete 2%nat
       (Events.addEventListener Events.complete 1%nat Events.empty)).

Definition one_listener : Events.registry nat :=
  Events.addEventListener Events.frame 1%nat
    (Events.addEventListener Events.complete 2%nat Events.empty).

(** [{ state: name }] *)
Definition only_state (name : string) : IconProperties.t :=
  IconProperties.mk (VStr name) None VUndefined VUndefined VUndefined VUndefined.

Definition loop_spin : IconState.t :=
  IconState.mk (Some "loop-spin") (num 130) (num 10) [] false.

End MoreExamples.

(** ** The path accessor never raises on a miss *)

Section PathAccessor.
Import Utils PathSpec.
Context `{realm : Realm}.

(** On an indexable structure neither [in] nor the indexing raises. *)
Lemma js_in_objectLike node key :
  isObjectLike node = true ->
  js_in key node = Ok (bool_decide (is_Some (lookup node key))).
Proof. destruct node as [[]|b]; simpl; try discriminate; reflexivity. Qed.

Lemma js_get_objectLike node key :
  isObjectLike node = true ->
  js_get node key = Ok (default (Data VUndefined) (lookup node key)).
Proof. destruct node as [[]|b]; simpl; try discriminate; reflexivity. Qed.

Lemma js_in_member node key v :
  member node key v -> js_in key node = Ok true.
Proof.
  intros [Hobj Hlook]. rewrite (js_in_objectLike node key Hobj), Hlook.
  rewrite bool_decide_eq_true_2; [reflexivity | by eexists].
Qed.

Lemma js_get_member node key v :
  member node key v -> js_get node key = Ok v.
Proof.
  intros [Hobj Hlook]. rewrite (js_get_objectLike node key Hobj), Hlook.
  reflexivity.
Qed.

Lemma member_objectLike node key v :
  member node key v -> isObjectLike node = true.
Proof. intros [Hobj _]. exact Hobj. Qed.


Lemma get_loop_never_throws keys : forall current d,
  exists v, get_loop current keys d = Ok v.
Proof.
  induction keys as [|key rest IH]; intros current d; simpl; [eauto|].
  destruct (isObjectLike current) eqn:Hobj; simpl; [|eauto].
  rewrite (js_in_objectLike current key Hobj). simpl.
  destruct (bool_decide _); simpl; [|eauto].
  rewrite (js_get_objectLike current key Hobj). simpl.
  apply IH.
Qed.

Lemma has_loop_never_throws keys : forall current,
  exists b, has_loop current keys = Ok b.
Proof.
  induction keys as [|key rest IH]; intros current; simpl; [eauto|].
  destruct (isObjectLike current) eqn:Hobj; simpl; [|eauto].
  rewrite (js_in_objectLike current key Hobj). simpl.
  destruct (bool_decide _); simpl; [|eauto].
  rewrite (js_get_objectLike current key Hobj). simpl.
  apply IH.
Qed.

(** [get] and [has] return for every object and every path. *)
Lemma get_never_throws object p d : exists v, get object p d = Ok v.
Proof. apply get_loop_never_throws. Qed.

Lemma has_never_throws object p : exists b, has object p = Ok b.
Proof. apply has_loop_never_throws. Qed.



End PathAccessor.

(** ** The player *)

Section PlayerFacts.
Import Player PlayerSpec.
Context `{realm : Realm} `{coercion : Coercion}
        `{renderer : Lottie.Renderer} `{lib : !LottieLib}.

#[local] Notation "x <- m ;; k" := (bind m (fun x => k))
  (at level 100, m at next level, right associativity).
#[local] Notation "m ;;; k" := (bind m (fun _ => k))
  (at level 100, right associativity).

(** *** Frame rules *)

Lemma preserves_ret {A X} (f : Player.t -> X) (a : A) : preserves f (ret a).
Proof. intros p. reflexivity. Qed.

Lemma preserves_throw {A X} (f : Player.t -> X) e : preserves f (@throw _ A e).
Proof. intros p. reflexivity. Qed.

Lemma preserves_lift {A X} (f : Player.t -> X) (r : result A) :
  preserves f (lift r).
Proof. intros p. reflexivity. Qed.

Lemma preserves_this {X} (f : Player.t -> X) : preserves f this.
Proof. intros p. reflexivity. Qed.

Lemma preserves_bind {A B X} (f : Player.t -> X) (m : M A) (k : A -> M B) :
  preserves f m -> (forall a, preserves f (k a)) -> preserves f (bind m k).
Proof.
  intros Hm Hk p. unfold bind. specialize (Hm p).
  destruct (m p) as [[a|e] p']; simpl in *.
  - rewrite Hk. exact Hm.
  - exact Hm.
Qed.

Lemma preserves_assign {X} (f : Player.t -> X) (g : Player.t -> Player.t) :
  (forall p, f (g p) = f p) -> preserves f (assign g).
Proof. intros Hg p. apply Hg. Qed.

Lemma preserves_when {X} (f : Player.t -> X) b m :
  preserves f m -> preserves f (when b m).
Proof. intros Hm. destruct b; [exact Hm | apply preserves_ret]. Qed.

Create HintDb preserve discriminated.
#[local] Hint Resolve preserves_ret preserves_throw preserves_lift
  preserves_this preserves_when : preserve.

(** Splits a computation along its binds and case distinctions; what
    remains are its assignments and the methods it calls. *)
Ltac frame :=
  repeat match goal with
    | |- preserves _ (bind _ _) => apply preserves_bind; [|intros ?]
    | |- preserves _ (ret _) => apply preserves_ret
    | |- preserves _ (throw _) => apply preserves_throw
    | |- preserves _ (lift _) => apply preserves_lift
    | |- preserves _ this => apply preserves_this
    | |- preserves _ (when _ _) => apply preserves_when
    | |- preserves _ (assign _) => apply preserves_assign; intros ?; reflexivity
    | |- preserves _ (match ?x with _ => _ end) => destruct x
    | |- preserves _ (let _ := _ in _) => cbv zeta
    | |- preserves _ _ => solve [eauto with preserve]
    end.

(** *** Methods called by the constructor and by the setters *)

Lemma with_lottieInstance_same (p : Player.t) :
  with_lottieInstance (_lottieInstance p) p = p.
Proof. destruct p; reflexivity. Qed.

Section Blind.
Context {X : Type} (f : Player.t -> X) (Hblind : transport_blind f).

Lemma preserves_connected : preserves f connected.
Proof.
  intros p. unfold connected, bind, this. simpl.
  destruct (_lottieInstance p); reflexivity.
Qed.

Lemma preserves_on_instance g : preserves f (on_instance g).
Proof.
  intros p. unfold on_instance, assign. simpl.
  destruct (_lottieInstance p) as [i|] eqn:Hi; simpl.
  - eapply (proj2 Hblind); eassumption.
  - rewrite <- Hi. rewrite with_lottieInstance_same. reflexivity.
Qed.

Lemma preserves_on_target g r : preserves f (on_target g r).
Proof.
  intros p. unfold on_target, bind, this, lift, assign. simpl.
  destruct (_lottieInstance p) as [i|] eqn:Hi; simpl; [|reflexivity].
  destruct (g i); simpl; [|reflexivity].
  eapply (proj2 Hblind); eassumption.
Qed.

Lemma preserves_get_lottieProperties : preserves f get_lottieProperties.
Proof.
  unfold get_lottieProperties.
  frame. apply preserves_assign. intros q. apply (proj1 Hblind).
Qed.

#[local] Hint Resolve preserves_connected preserves_on_instance
  preserves_on_target preserves_get_lottieProperties : preserve.

Lemma preserves_refresh : preserves f refresh.
Proof. unfold refresh. frame. Qed.

#[local] Hint Resolve preserves_refresh : preserve.

Lemma preserves_apply_colors entries : preserves f (apply_colors entries).
Proof.
  induction entries as [|[key v] rest IH]; simpl; [apply preserves_ret|].
  frame.
Qed.

#[local] Hint Resolve preserves_apply_colors : preserve.

Lemma preserves_set_colors colors : preserves f (set_colors colors).
Proof. unfold set_colors. frame. Qed.

Lemma preserves_set_stroke stroke : preserves f (set_stroke stroke).
Proof. unfold set_stroke. frame. Qed.

End Blind.

#[local] Hint Resolve preserves_connected preserves_on_instance
  preserves_on_target preserves_get_lottieProperties preserves_refresh
  preserves_apply_colors preserves_set_colors preserves_set_stroke : preserve.

Lemma blind_availableStates : transport_blind _availableStates.
Proof. split; reflexivity. Qed.

Lemma blind_iconData : transport_blind _iconData.
Proof. split; reflexivity. Qed.

Lemma blind_initialProperties : transport_blind _initialProperties.
Proof. split; reflexivity. Qed.

Lemma blind_state : transport_blind _state.
Proof. split; reflexivity. Qed.

Lemma blind_connection : transport_blind connection.
Proof.
  split; [reflexivity|]. intros i i' p Hi. unfold connection. simpl.
  rewrite Hi. reflexivity.
Qed.

#[local] Hint Resolve blind_availableStates blind_iconData
  blind_initialProperties blind_state blind_connection : preserve.

(** *** Parsing the markers *)

Lemma num_gt_positive n : num_gt n (num 0) = true <-> num_positive n.
Proof.
  destruct n as [|q]; simpl; [split; [discriminate | contradiction]|].
  rewrite negb_true_iff. split.
  - intros Hle. apply Qnot_le_lt. intros Hq.
    apply Qle_bool_iff in Hq. unfold inject_Z in Hle. congruence.
  - intros Hlt. destruct (Qle_bool q (inject_Z 0)) eqn:Hle; [|reflexivity].
    apply Qle_bool_iff in Hle. exfalso. exact (Qlt_not_le _ _ Hlt Hle).
Qed.

Lemma is_supported_flag_default tok :
  is_supported_flag tok = true -> tok = "default".
Proof.
  unfold is_supported_flag, SUPPORTED_STATE_FLAGS. intros H.
  apply bool_decide_eq_true_1 in H. by apply list_elem_of_singleton in H.
Qed.

(** The loop over the flags returns: its [throw] is never reached. *)
Lemma read_flags_returns parts : forall st,
  exists parts' st',
    read_flags parts st = Ok (parts', st')
    /\ IconState.time st' = IconState.time st
    /\ IconState.duration st' = IconState.duration st.
Proof.
  induction parts as [|tok rest IH]; intros st; simpl; [eauto|].
  destruct (is_supported_flag tok) eqn:Hflag; [|eauto].
  rewrite (is_supported_flag_default tok Hflag). simpl.
  destruct (IH (with_default true st)) as (parts' & st' & -> & Ht & Hd). eauto.
Qed.

Lemma read_flags_no_flag tok rest st :
  tok ∉ SUPPORTED_STATE_FLAGS ->
  read_flags (tok :: rest) st = Ok (tok :: rest, st).
Proof.
  intros Hno. simpl. unfold is_supported_flag.
  rewrite bool_decide_eq_false_2; [reflexivity | exact Hno].
Qed.

Lemma state_of_marker_times c :
  IconState.time (state_of_marker c) = Marker.tm c
  /\ IconState.duration (state_of_marker c) = Marker.dr c.
Proof.
  unfold state_of_marker.
  destruct (read_flags_returns (split ":" (Marker.cm c))
              (IconState.mk (Some "") (Marker.tm c) (Marker.dr c) [] false))
    as (parts' & st' & -> & Ht & Hd).
  simpl in *. split; assumption.
Qed.

Lemma parse_marker_spec c p :
  parse_marker c p =
  (Ok (state_of_marker c),
   with_state (select (IconProperties.state (_initialProperties p))
                      (state_of_marker c) (_state p)) p).
Proof.
  unfold parse_marker, state_of_marker, select, bind, lift.
  destruct (read_flags_returns (split ":" (Marker.cm c))
              (IconState.mk (Some "") (Marker.tm c) (Marker.dr c) [] false))
    as (parts' & st' & -> & _ & _).
  simpl.
  destruct (name_is (head parts') _); [reflexivity|].
  destruct (IconState.default st' && _); [reflexivity|].
  destruct p; reflexivity.
Qed.

Lemma map_markers_spec cs : forall p,
  map_markers cs p =
  (Ok (map state_of_marker cs),
   with_state (selection (IconProperties.state (_initialProperties p))
                         (map state_of_marker cs) (_state p)) p).
Proof.
  induction cs as [|c rest IH]; intros p; simpl.
  - destruct p; reflexivity.
  - unfold bind at 1. rewrite parse_marker_spec.
    unfold bind at 1. rewrite IH. destruct p; reflexivity.
Qed.

(** *** The phases of the constructor *)

Lemma preserves_update_iconData {X} (f : Player.t -> X) g :
  (forall v p, f (with_iconData v p) = f p) ->
  preserves f (update_iconData g).
Proof.
  intros Hf. unfold update_iconData. frame.
  apply preserves_assign. intros q. apply Hf.
Qed.

Lemma preserves_legacy_setup {X} (f : Player.t -> X) :
  (forall v p, f (with_iconData v p) = f p) ->
  preserves f legacy_setup.
Proof.
  intros Hf.
  assert (Hup : forall g, preserves f (update_iconData g))
    by (intros g; apply preserves_update_iconData, Hf).
  unfold legacy_setup, scale_against_baseline. frame.
  apply preserves_assign. intros q. apply Hf.
Qed.

Lemma preserves_modern_setup {X} (f : Player.t -> X) :
  (forall v p, f (with_initialProperties v p) = f p) ->
  (forall v p, f (with_state v p) = f p) ->
  preserves f modern_setup.
Proof.
  intros Hi Hs. unfold modern_setup. frame.
  - apply preserves_assign. intros q. apply Hi.
  - apply preserves_assign. intros q. apply Hs.
Qed.

Lemma preserves_init {X} (f : Player.t -> X) :
  transport_blind f ->
  (forall v p, f (with_lottieInstance v p) = f p) ->
  (forall v p, f (with_liveInstances v p) = f p) ->
  (forall v p, f (with_ready v p) = f p) ->
  preserves f init.
Proof.
  intros Hblind Hi Hl Hr. unfold init.
  frame; apply preserves_assign; intros q;
    first [apply Hi | apply Hl | apply Hr].
Qed.

Lemma constructor_parsed data properties options p0 :
  constructor data properties options p0
  = branches options (parsed data properties p0).
Proof.
  unfold constructor.
  unfold bind at 1. unfold assign at 1.
  unfold bind at 1. unfold assign at 1.
  unfold bind at 1. rewrite map_markers_spec.
  unfold bind at 1. unfold assign at 1.
  reflexivity.
Qed.

Lemma preserves_branches_availableStates options :
  preserves _availableStates (branches options).
Proof.
  unfold branches. frame.
  - apply preserves_modern_setup; reflexivity.
  - apply preserves_legacy_setup; reflexivity.
  - apply preserves_init; auto with preserve.
Qed.

Lemma constructor_availableStates data properties options p0 :
  _availableStates (constructor data properties options p0).2
  = catalogue_of data.
Proof.
  rewrite constructor_parsed, preserves_branches_availableStates.
  reflexivity.
Qed.

Lemma new_availableStates data properties options p :
  new data properties options = Ok p ->
  _availableStates p = catalogue_of data.
Proof.
  unfold new. intros Hnew.
  pose proof (constructor_availableStates data properties options (blank data))
    as Hc.
  destruct (constructor data properties options (blank data)) as [[u|e] q];
    [|discriminate].
  injection Hnew as <-. exact Hc.
Qed.

Lemma elem_of_catalogue data s :
  s ∈ catalogue_of data <->
  num_positive (IconState.duration s)
  /\ exists c, c ∈ default [] (LottieData.markers data) /\ s = state_of_marker c.
Proof.
  unfold catalogue_of. rewrite list_elem_of_filter, list_elem_of_fmap.
  unfold positive_duration. rewrite Is_true_true, num_gt_positive.
  split; intros [Hpos (c & H1 & H2)]; split; eauto.
Qed.

(** A document without a marker of positive duration has an empty
    catalogue. *)
Lemma no_valid_marker_empty_catalogue data properties options p :
  new data properties options = Ok p ->
  (forall c, c ∈ default [] (LottieData.markers data) ->
             ~ num_positive (Marker.dr c)) ->
  _availableStates p = [].
Proof.
  intros Hnew Hnone. rewrite (new_availableStates _ _ _ _ Hnew).
  destruct (catalogue_of data) as [|s rest] eqn:Hcat; [reflexivity|].
  assert (Hs : s ∈ catalogue_of data) by (rewrite Hcat; left).
  apply elem_of_catalogue in Hs. destruct Hs as [Hpos (c & Hc & ->)].
  rewrite (proj2 (state_of_marker_times c)) in Hpos.
  exfalso. exact (Hnone c Hc Hpos).
Qed.

(** C6.  Every entry of the catalogue of a constructed player has a
    duration greater than zero: a marker whose duration is zero or
    negative is never stored as a state. *)
Theorem catalogue_durations_positive
  (data : LottieData.t) (properties : option IconProperties.t)
  (options : option (option bool)) (p : Player.t) (s : IconState.t) :
  new data properties options = Ok p ->
  s ∈ _availableStates p ->
  num_positive (IconState.duration s).
Proof.
  intros Hnew Hin. rewrite (new_availableStates _ _ _ _ Hnew) in Hin.
  apply elem_of_catalogue in Hin. tauto.
Qed.

(** C7.  A marker named ["default:hover-spending:fast"] of positive
    duration is stored as a state with [default = true],
    [name = "hover-spending"] and [params = ["fast"]]: the flag is
    consumed, the next token is the name, the rest are parameters. *)
Theorem default_hover_spending_fast
  (data : LottieData.t) (properties : option IconProperties.t)
  (options : option (option bool)) (p : Player.t) (tm dr : number) :
  new data properties options = Ok p ->
  Marker.mk "default:hover-spending:fast" tm dr
    ∈ default [] (LottieData.markers data) ->
  num_positive dr ->
  IconState.mk (Some "hover-spending") tm dr ["fast"] true ∈ _availableStates p.
Proof.
  intros Hnew Hin Hpos. rewrite (new_availableStates _ _ _ _ Hnew).
  apply elem_of_catalogue. split; [exact Hpos|].
  eexists. split; [exact Hin | reflexivity].
Qed.

(** C1 (as amended).  No marker makes the constructor raise the
    unsupported-flag error: the loop over the flags always returns, and a
    leading token that is not a flag keyword is the name of the state,
    the remaining tokens being its parameters and the state not being
    flagged default. *)
Theorem unrecognized_leading_token_is_the_name
  (data : LottieData.t) (properties : option IconProperties.t)
  (options : option (option bool)) (c : Marker.t)
  (tok : string) (rest : list string) :
  c ∈ default [] (LottieData.markers data) ->
  split ":" (Marker.cm c) = tok :: rest ->
  tok ∉ SUPPORTED_STATE_FLAGS ->
  (forall p0, exists states p1,
      map_markers (default [] (LottieData.markers data)) p0 = (Ok states, p1))
  /\ (forall p, new data properties options = Ok p ->
                num_positive (Marker.dr c) ->
                IconState.mk (Some tok) (Marker.tm c) (Marker.dr c) rest false
                  ∈ _availableStates p).
Proof.
  intros Hin Hsplit Hno. split.
  - intros p0. rewrite map_markers_spec. eauto.
  - intros p Hnew Hpos. rewrite (new_availableStates _ _ _ _ Hnew).
    apply elem_of_catalogue. split; [exact Hpos|].
    exists c. split; [exact Hin|].
    unfold state_of_marker. rewrite Hsplit, read_flags_no_flag by exact Hno.
    reflexivity.
Qed.

(** *** Which branch runs *)

Lemma bind_fst_ok {A B} (m : M A) (k : A -> M B) p b :
  (bind m k p).1 = Ok b ->
  exists a, (m p).1 = Ok a /\ (k a (m p).2).1 = Ok b.
Proof.
  unfold bind. destruct (m p) as [[a|e] q]; simpl; [eauto | discriminate].
Qed.

Lemma bind_snd_ok {A B} (m : M A) (k : A -> M B) p a :
  (m p).1 = Ok a -> (bind m k p).2 = (k a (m p).2).2.
Proof.
  unfold bind. destruct (m p) as [[a'|e] q]; simpl; [|discriminate].
  intros [= ->]. reflexivity.
Qed.

Lemma bind_ext {A B} (m : M A) (k k' : A -> M B) p :
  (forall a q, m p = (Ok a, q) -> k a q = k' a q) ->
  bind m k p = bind m k' p.
Proof.
  intros Hk. unfold bind. destruct (m p) as [[a|e] q]; [|reflexivity].
  apply Hk. reflexivity.
Qed.

Lemma new_constructor data properties options p :
  new data properties options = Ok p ->
  branches options (parsed data properties (blank data)) = (Ok tt, p).
Proof.
  unfold new. rewrite constructor_parsed.
  destruct (branches options _) as [[[]|e] q]; [|discriminate].
  intros [= ->]. reflexivity.
Qed.

Lemma branches_modern options q :
  _availableStates q <> [] ->
  branches options q = (modern_setup;;; when (autoInit options) init) q.
Proof.
  intros Hne. unfold branches. unfold bind at 1, this at 1.
  rewrite bool_decide_eq_false_2 by exact Hne. simpl negb. unfold when at 1.
  apply bind_ext. intros [] q' Hrun.
  pose proof (preserves_modern_setup _availableStates
                (fun _ _ => eq_refl) (fun _ _ => eq_refl) q) as Hav.
  rewrite Hrun in Hav. simpl in Hav.
  unfold bind at 1, this at 1.
  rewrite bool_decide_eq_false_2 by (rewrite Hav; exact Hne).
  unfold when at 1. unfold bind at 1, ret at 1. reflexivity.
Qed.

Lemma branches_legacy options q :
  _availableStates q = [] ->
  branches options q = (legacy_setup;;; when (autoInit options) init) q.
Proof.
  intros He. unfold branches. unfold bind at 1, this at 1.
  rewrite bool_decide_eq_true_2 by exact He. simpl negb. unfold when at 1.
  unfold bind at 1, ret at 1. unfold bind at 1, this at 1.
  rewrite bool_decide_eq_true_2 by exact He. reflexivity.
Qed.

Lemma init_keeps options :
  preserves (fun p => (_iconData p, _initialProperties p, _state p))
            (when (autoInit options) init).
Proof.
  apply preserves_when, preserves_init; try reflexivity.
  split; reflexivity.
Qed.

(** *** The initial stroke *)

Lemma modern_setup_stroke q :
  includes VOCABULARY (IconProperties.stroke (_initialProperties q)) = false ->
  truthy (IconProperties.stroke (_initialProperties (modern_setup q).2)) = false.
Proof.
  intros Hout. unfold modern_setup.
  unfold bind at 1, this at 1. rewrite Hout. simpl negb. rewrite andb_true_r.
  destruct (truthy (IconProperties.stroke (_initialProperties q))) eqn:Htruthy;
    unfold when at 1.
  - unfold bind at 1, assign at 1.
    match goal with
    | |- context [(bind this ?k ?q')] =>
        assert (Hk : preserves _initialProperties (bind this k))
          by (apply preserves_bind;
              [apply preserves_this | intros ?; cbv beta; frame]);
        rewrite (Hk q')
    end.
    reflexivity.
  - unfold bind at 1, ret at 1.
    match goal with
    | |- context [(bind this ?k ?q')] =>
        assert (Hk : preserves _initialProperties (bind this k))
          by (apply preserves_bind;
              [apply preserves_this | intros ?; cbv beta; frame]);
        rewrite (Hk q')
    end.
    exact Htruthy.
Qed.

Lemma legacy_setup_stroke q catalogue property :
  extractLottieProperties (_iconData q) false = Some catalogue ->
  named "stroke" catalogue = Some property ->
  truthy (IconProperties.stroke (_initialProperties q)) = true ->
  truthy (IconProperties.state (_initialProperties q)) = false ->
  truthy (IconProperties.scale (_initialProperties q)) = false ->
  truthy (IconProperties.axisX (_initialProperties q)) = false ->
  (legacy_setup q).1 = Ok tt ->
  Utils.set (LottieData.tree (_iconData q))
            (Utils.PathString (LottieProperty.path property))
            (js_mul (IconProperties.stroke (_initialProperties q))
                    (js_div (LottieProperty.value property) (VNum (num 50))))
  = Ok (LottieData.tree (_iconData (legacy_setup q).2)).
Proof.
  intros Hext Hnamed Hstroke Hstate Hscale Haxis.
  unfold legacy_setup, scale_against_baseline, update_iconData, Utils.deepClone.
  unfold bind, this, assign, lift, when, ret. simpl.
  rewrite Hext, Hstate, Hstroke, Hnamed, Hscale, Haxis. simpl.
  destruct (Utils.set _ _ _) as [tree'|e]; simpl; [reflexivity | discriminate].
Qed.

(** C3 (as amended).  In a document with states, an initial stroke outside
    the vocabulary [{1, 2, 3, light, regular, bold}] is treated as absent:
    after construction the initial stroke is falsy, so nothing applies it.
    In a document without states the initial stroke is not checked against
    the vocabulary: it stays in the initial properties, and (when it is
    the only legacy control supplied) the document's [stroke] property is
    set to the supplied value times a fiftieth of its original value. *)
Theorem initial_stroke_by_document_era
  (data : LottieData.t) (properties : IconProperties.t)
  (options : option (option bool)) (p : Player.t) :
  new data (Some properties) options = Ok p ->
  (_availableStates p <> [] ->
   includes VOCABULARY (IconProperties.stroke properties) = false ->
   truthy (IconProperties.stroke (_initialProperties p)) = false)
  /\ (_availableStates p = [] ->
      IconProperties.stroke (_initialProperties p)
      = IconProperties.stroke properties
      /\ forall catalogue property,
          extractLottieProperties data false = Some catalogue ->
          named "stroke" catalogue = Some property ->
          truthy (IconProperties.stroke properties) = true ->
          truthy (IconProperties.state properties) = false ->
          truthy (IconProperties.scale properties) = false ->
          truthy (IconProperties.axisX properties) = false ->
          Utils.set (LottieData.tree data)
                    (Utils.PathString (LottieProperty.path property))
                    (js_mul (IconProperties.stroke properties)
                            (js_div (LottieProperty.value property)
                                    (VNum (num 50))))
          = Ok (LottieData.tree (_iconData p))).
Proof.
  intros Hnew.
  pose proof (new_availableStates _ _ _ _ Hnew) as Hcat.
  apply new_constructor in Hnew.
  set (q := parsed data (Some properties) (blank data)) in *.
  assert (Hq : _availableStates q = catalogue_of data) by reflexivity.
  split.
  - intros Hne Hout. rewrite Hcat, <- Hq in Hne.
    rewrite (branches_modern options q Hne) in Hnew.
    pose proof (init_keeps options (modern_setup q).2) as Hkeep.
    pose proof (modern_setup_stroke q Hout) as Hs.
    unfold bind in Hnew.
    destruct (modern_setup q) as [[[]|e] q1]; [|discriminate].
    simpl in Hkeep, Hs. rewrite Hnew in Hkeep. simpl in Hkeep.
    injection Hkeep as _ Hprops _. rewrite Hprops. exact Hs.
  - intros He. rewrite Hcat, <- Hq in He.
    rewrite (branches_legacy options q He) in Hnew.
    pose proof (init_keeps options (legacy_setup q).2) as Hkeep.
    pose proof (preserves_legacy_setup _initialProperties
                  (fun _ _ => eq_refl) q) as Hprops.
    pose proof (legacy_setup_stroke q) as Hset.
    unfold bind in Hnew.
    destruct (legacy_setup q) as [[[]|e] q1]; [|discriminate].
    simpl in Hkeep, Hprops, Hset. rewrite Hnew in Hkeep. simpl in Hkeep.
    injection Hkeep as Hdata Hprops' _. rewrite Hprops', Hprops, Hdata.
    split; [reflexivity|].
    intros catalogue property Hext Hnamed Hstroke Hstate Hscale Haxis.
    exact (Hset catalogue property Hext Hnamed Hstroke Hstate Hscale Haxis
                eq_refl).
Qed.

(** *** Transport on a connected player *)

Lemma connected_some p i :
  _lottieInstance p = Some i -> connected p = (Ok i, p).
Proof. intros Hi. unfold connected, bind, this. simpl. rewrite Hi. reflexivity. Qed.

Lemma on_instance_some g p i :
  _lottieInstance p = Some i ->
  on_instance g p = (Ok tt, with_lottieInstance (Some (g i)) p).
Proof. intros Hi. unfold on_instance, assign. rewrite Hi. reflexivity. Qed.

Lemma seek_some frame p i :
  _lottieInstance p = Some i ->
  seek frame p
  = (Ok tt, with_lottieInstance (Some (Lottie.goToAndStop frame true i)) p).
Proof.
  intros Hi. unfold seek. unfold bind. rewrite (connected_some p i Hi).
  apply on_instance_some, Hi.
Qed.





(** *** Switching the state *)

Lemma switchSegment_some segment p i :
  _lottieInstance p = Some i ->
  switchSegment segment p
  = (Ok tt,
     with_lottieInstance
       (Some (Lottie.goToAndStop (num 0) true
                (match segment with
                 | Some (a, b) => Lottie.setSegment a b i
                 | None => Lottie.resetSegments true i
                 end))) p).
Proof.
  intros Hi. unfold switchSegment. unfold bind at 1.
  rewrite (connected_some p i Hi). unfold bind.
  destruct segment as [[a b]|];
    rewrite (on_instance_some _ p i Hi);
    (erewrite on_instance_some by reflexivity);
    destruct p; reflexivity.
Qed.

Lemma restart_some p i :
  _lottieInstance p = Some i ->
  (pause;;; play) p
  = (Ok tt,
     with_lottieInstance
       (Some (Lottie.play (Lottie.setDirection (_direction p) (Lottie.pause i))))
       p).
Proof.
  intros Hi. unfold pause, play, bind.
  rewrite (connected_some p i Hi), (on_instance_some _ p i Hi).
  erewrite connected_some by reflexivity. unfold this.
  erewrite on_instance_some by reflexivity.
  erewrite on_instance_some by reflexivity.
  destruct p; reflexivity.
Qed.

Lemma set_state_switch p i requested current :
  _lottieInstance p = Some i ->
  (get_state p).1 = Ok current ->
  strict_eq requested current = false ->
  let target := resolved requested (_availableStates p) in
  let stopped :=
    Lottie.goToAndStop (num 0) true
      (match target with
       | Some s => Lottie.setSegment (segment_of s).1 (segment_of s).2 i
       | None => Lottie.resetSegments true i
       end) in
  let after :=
    if Lottie.isPaused i then stopped
    else Lottie.play (Lottie.setDirection (_direction p) (Lottie.pause stopped)) in
  set_state requested p
  = (Ok tt, with_lottieInstance (Some after) (with_state target p)).
Proof.
  intros Hi Hcur Hdiff target stopped after.
  unfold set_state. unfold bind at 1. rewrite (connected_some p i Hi).
  unfold bind at 1.
  assert (Hget : get_state p = (Ok current, p)).
  { revert Hcur. unfold get_state, bind, this, ret. simpl.
    destruct (_state p); simpl; intros [= <-]; reflexivity. }
  rewrite Hget, Hdiff.
  unfold bind at 1. unfold get_playing, bind at 1.
  rewrite (connected_some p i Hi). unfold ret at 1.
  unfold bind at 1, assign at 1.
  set (p0 := with_state None p).
  assert (Hi0 : _lottieInstance p0 = Some i) by exact Hi.
  assert (Hresolve :
    (if Utils.isNil requested
     then assign (fun p => with_state (default_state (_availableStates p)) p)
     else when (truthy requested)
            (assign (fun p => with_state
                                (state_named requested (_availableStates p)) p);;;
             p <- this;;
             when (negb (bool_decide (is_Some (_state p))))
                  (assign (with_state (default_state (_availableStates p))))))
      p0
    = (Ok tt, with_state target p)).
  { subst target. unfold resolved.
    destruct (Utils.isNil requested); [reflexivity|].
    destruct (truthy requested); [|reflexivity].
    unfold when, bind, assign, this. simpl.
    destruct (state_named requested (_availableStates p)) eqn:Hnamed;
      reflexivity. }
  unfold bind at 1. rewrite Hresolve.
  unfold bind at 1, this at 1.
  unfold bind at 1.
  rewrite (switchSegment_some _ (with_state target p) i Hi).
  subst after stopped. simpl _state.
  destruct (Lottie.isPaused i); simpl negb.
  - unfold when, ret. destruct target; reflexivity.
  - unfold when. erewrite restart_some by reflexivity.
    destruct target; reflexivity.
Qed.

Lemma get_state_returns p :
  exists current,
    (get_state p).1 = Ok current
    /\ forall requested, strict_eq requested current = true -> requested = current.
Proof.
  unfold get_state, bind, this, ret. simpl.
  destruct (_state p) as [s|]; simpl.
  - exists (name_value (IconState.name s)). split; [reflexivity|].
    intros requested. destruct (IconState.name s) as [n|]; simpl;
      destruct requested; try discriminate; [|reflexivity].
    intros Heq. apply String.eqb_eq in Heq. by subst.
  - exists (VStr ""). split; [reflexivity|].
    intros requested. destruct requested; try discriminate. simpl.
    intros Heq. apply String.eqb_eq in Heq. by subst.
Qed.

Lemma strict_eq_differs p requested :
  (get_state p).1 <> Ok requested ->
  exists current,
    (get_state p).1 = Ok current /\ strict_eq requested current = false.
Proof.
  intros Hne. destruct (get_state_returns p) as (current & Hcur & Heq).
  exists current. split; [exact Hcur|].
  destruct (strict_eq requested current) eqn:Hs; [|reflexivity].
  exfalso. apply Hne. rewrite Hcur, (Heq requested Hs). reflexivity.
Qed.

Lemma head_filter_Some {A} (P : A -> bool) l x :
  head (filter (fun c => P c) l) = Some x -> x ∈ l /\ P x = true.
Proof.
  intros Hhead. apply head_Some_elem_of in Hhead.
  apply list_elem_of_filter in Hhead. destruct Hhead as [HP Hin].
  split; [exact Hin | by apply Is_true_true].
Qed.

Lemma head_filter_None {A} (P : A -> bool) l :
  head (filter (fun c => P c) l) = None <-> forall x, x ∈ l -> P x = false.
Proof.
  rewrite head_None. split.
  - intros Hnil x Hin. destruct (P x) eqn:HP; [|reflexivity].
    assert (x ∈ filter (fun c => P c) l)
      by (apply list_elem_of_filter; split; [by apply Is_true_true | exact Hin]).
    rewrite Hnil in H. by apply not_elem_of_nil in H.
  - intros Hall. induction l as [|a l IH]; [reflexivity|].
    rewrite filter_cons_False.
    + apply IH. intros x Hx. apply Hall. by right.
    + rewrite (Hall a) by left. exact id.
Qed.

Lemma name_is_string n s : name_is n (VStr s) = true <-> n = Some s.
Proof.
  destruct n as [n|]; simpl; [|split; discriminate].
  rewrite String.eqb_eq. split; congruence.
Qed.

(** On a connected player, requesting a non-empty name that is the name
    of no entry of the catalogue, and is not already the value of
    [state], selects the first entry flagged default; when no entry is
    flagged default no state is selected, and [state] reads empty. *)
Theorem unknown_state_name_falls_back
  (p : Player.t) (i : Lottie.instance) (name : string) :
  _lottieInstance p = Some i ->
  name <> "" ->
  (forall s, s ∈ _availableStates p -> IconState.name s <> Some name) ->
  (get_state p).1 <> Ok (VStr name) ->
  exists p',
    set_state (VStr name) p = (Ok tt, p')
    /\ _availableStates p' = _availableStates p
    /\ _state p' = default_state (_availableStates p)
    /\ match _state p' with
       | Some s => s ∈ _availableStates p /\ IconState.default s = true
       | None =>
           (forall s, s ∈ _availableStates p -> IconState.default s = false)
           /\ (get_state p').1 = Ok (VStr "")
       end.
Proof.
  intros Hi Hname Hnone Hdiff.
  destruct (strict_eq_differs p (VStr name) Hdiff) as (current & Hcur & Hs).
  pose proof (set_state_switch p i (VStr name) current Hi Hcur Hs) as Hset.
  cbv zeta in Hset.
  assert (Hres : resolved (VStr name) (_availableStates p)
                 = default_state (_availableStates p)).
  { unfold resolved. simpl.
    destruct (String.eqb_spec name ""); [contradiction|]. simpl.
    assert (state_named (VStr name) (_availableStates p) = None) as ->;
      [|reflexivity].
    apply (head_filter_None (fun c => name_is (IconState.name c) (VStr name))).
    intros x Hx. destruct (name_is _ _) eqn:Hn; [|reflexivity].
    apply name_is_string in Hn. exfalso. exact (Hnone x Hx Hn). }
  rewrite Hres in Hset.
  eexists. split; [exact Hset|]. split; [reflexivity|]. split; [reflexivity|].
  simpl _state. unfold default_state.
  destruct (head _) as [s|] eqn:Hhead.
  - exact (head_filter_Some IconState.default _ _ Hhead).
  - split; [|reflexivity].
    exact (proj1 (head_filter_None IconState.default _) Hhead).
Qed.

(** On a connected player whose [state] does not read empty, assigning
    the empty string to [state] returns and leaves no state selected,
    whatever the catalogue holds, an entry flagged default included;
    [state] reads empty afterwards. *)
Theorem empty_state_name_deselects (p : Player.t) (i : Lottie.instance) :
  _lottieInstance p = Some i ->
  (get_state p).1 <> Ok (VStr "") ->
  (set_state (VStr "") p).1 = Ok tt
  /\ _state (set_state (VStr "") p).2 = None
  /\ (get_state (set_state (VStr "") p).2).1 = Ok (VStr "").
Proof.
  intros Hi Hdiff.
  destruct (strict_eq_differs p (VStr "") Hdiff) as (current & Hcur & Hs).
  pose proof (set_state_switch p i (VStr "") current Hi Hcur Hs) as Hset.
  cbv zeta in Hset. rewrite Hset. repeat split.
Qed.

(** C5.  On a connected player that is playing, a switch to a different
    state that resolves (to the entry of that name, else to the entry
    flagged default) leaves the player playing, at frame 0 of the new
    segment, which starts at the time of the new state; the renderer was
    paused and played again. *)
Theorem switching_state_while_playing_restarts `{!Lottie.RendererLaws}
  (p : Player.t) (i : Lottie.instance) (requested : value) (s : IconState.t) :
  _lottieInstance p = Some i ->
  (get_playing p).1 = Ok true ->
  (get_state p).1 <> Ok requested ->
  resolves requested (_availableStates p) s ->
  let restarted :=
    Lottie.play
      (Lottie.setDirection (_direction p)
         (Lottie.pause
            (Lottie.goToAndStop (num 0) true
               (Lottie.setSegment (segment_of s).1 (segment_of s).2 i)))) in
  let p' := with_lottieInstance (Some restarted) (with_state (Some s) p) in
  set_state requested p = (Ok tt, p')
  /\ (get_playing p').1 = Ok true
  /\ (get_frame p').1 = Ok (num 0)
  /\ Lottie.firstFrame restarted = IconState.time s.
Proof.
  intros Hi Hplaying Hdiff Hres restarted p'.
  destruct (strict_eq_differs p requested Hdiff) as (current & Hcur & Hs).
  pose proof (set_state_switch p i requested current Hi Hcur Hs) as Hset.
  cbv zeta in Hset.
  assert (Hpaused : Lottie.isPaused i = false).
  { revert Hplaying. unfold get_playing, bind.
    rewrite (connected_some p i Hi). simpl.
    destruct (Lottie.isPaused i); [discriminate | reflexivity]. }
  assert (Hresolved : resolved requested (_availableStates p) = Some s).
  { unfold resolved.
    destruct Hres as [[Hnil Hd] | [[Ht Hn] | (Ht & Hn & Hd)]].
    - rewrite Hnil. exact Hd.
    - destruct (Utils.isNil requested) eqn:Hnil;
        [destruct requested; discriminate|].
      rewrite Ht, Hn. reflexivity.
    - destruct (Utils.isNil requested) eqn:Hnil;
        [destruct requested; discriminate|].
      rewrite Ht, Hn. exact Hd. }
  rewrite Hresolved, Hpaused in Hset.
  split; [exact Hset|].
  unfold get_playing, get_frame, bind, connected, this, ret. simpl.
  subst restarted.
  rewrite Lottie.play_isPaused, Lottie.play_currentFrame,
    Lottie.setDirection_currentFrame, Lottie.pause_currentFrame,
    Lottie.goToAndStop_currentFrame, Lottie.play_firstFrame,
    Lottie.setDirection_firstFrame, Lottie.pause_firstFrame,
    Lottie.goToAndStop_firstFrame, Lottie.setSegment_firstFrame.
  repeat split.
Qed.

(** *** One instance at a time *)

Lemma connected_once_connection p q :
  connection q = connection p -> connected_once p -> connected_once q.
Proof.
  unfold connection, connected_once. intros [= Hsome Hlive] Hp.
  rewrite Hlive, Hp.
  destruct (_lottieInstance p), (_lottieInstance q);
    try reflexivity; simpl in Hsome; discriminate.
Qed.

Lemma preserves_connection_perform c :
  c <> Init -> c <> Destroy -> preserves connection (perform c).
Proof.
  destruct c; try contradiction; intros _ _; simpl;
    unfold play, playFromStart, pause, stop, seekToStart, seekToEnd,
      set_frame, get_frameCount, seek, set_properties, set_state, get_state,
      get_playing, switchSegment, set_speed, set_direction, set_loop,
      pause, play;
    frame.
Qed.

Lemma init_connected_once p : connected_once p -> connected_once (init p).2.
Proof.
  intros Hp. unfold init. unfold bind at 1, this at 1.
  destruct (_lottieInstance p) eqn:Hi; [exact Hp|].
  unfold bind at 1, assign at 1. unfold bind at 1, assign at 1.
  match goal with
  | |- connected_once (?m ?q).2 =>
      assert (Hrest : preserves connection m) by frame;
      apply (connected_once_connection q); [apply Hrest|]
  end.
  unfold connected_once in *. rewrite Hi in Hp. simpl. rewrite Hp. reflexivity.
Qed.

Lemma destroy_connected_once p : connected_once p -> connected_once (destroy p).2.
Proof.
  intros Hp. unfold destroy, bind, this, assign. simpl.
  destruct (_lottieInstance p) eqn:Hi; [|exact Hp].
  unfold connected_once in *. rewrite Hi in Hp. simpl. rewrite Hp. reflexivity.
Qed.

Lemma perform_connected_once c p :
  connected_once p -> connected_once (perform c p).2.
Proof.
  intros Hp.
  destruct c;
    try (apply (connected_once_connection p);
         [apply preserves_connection_perform; discriminate | exact Hp]).
  - by apply init_connected_once.
  - by apply destroy_connected_once.
Qed.

Lemma perform_all_connected_once cs : forall p,
  connected_once p -> connected_once (perform_all cs p).
Proof.
  induction cs as [|c rest IH]; intros p Hp; simpl; [exact Hp|].
  apply IH, perform_connected_once, Hp.
Qed.

Lemma new_connected_once data properties options p :
  new data properties options = Ok p -> connected_once p.
Proof.
  intros Hnew. apply new_constructor in Hnew.
  assert (Hq : connected_once (parsed data properties (blank data)))
    by reflexivity.
  revert Hnew Hq. generalize (parsed data properties (blank data)). intros q.
  unfold branches. intros Hnew Hq.
  assert (Hp : connected_once (branches options q).2).
  { unfold branches.
    match goal with
    | |- connected_once (bind this ?k q).2 =>
        change (bind this k q) with (k q q)
    end.
    cbv beta.
    match goal with
    | |- connected_once (bind ?m ?k q).2 =>
        assert (Hm : preserves connection m)
          by (apply preserves_when, preserves_modern_setup; reflexivity);
        pose proof (Hm q) as Hm1;
        unfold bind at 1; destruct (m q) as [[[]|e] q1]; simpl in Hm1;
          [|exact (connected_once_connection q q1 Hm1 Hq)]
    end.
    match goal with
    | |- connected_once (bind this ?k q1).2 =>
        change (bind this k q1) with (k q1 q1)
    end.
    cbv beta.
    match goal with
    | |- connected_once (bind ?m ?k q1).2 =>
        assert (Hl : preserves connection m)
          by (apply preserves_when, preserves_legacy_setup; reflexivity);
        pose proof (Hl q1) as Hl1;
        unfold bind at 1; destruct (m q1) as [[[]|e] q2]; simpl in Hl1;
          [|apply (connected_once_connection q q2); [congruence | exact Hq]]
    end.
    assert (Hq2 : connected_once q2)
      by (apply (connected_once_connection q q2); [congruence | exact Hq]).
    destruct (autoInit options); simpl; [by apply init_connected_once | exact Hq2]. }
  unfold branches in Hp. rewrite Hnew in Hp. exact Hp.
Qed.

(** C9.  Whatever has been called on a constructed player, at most one
    renderer instance it loaded is live, and calling [init] while it
    holds an instance throws and leaves the object, the instance
    included, as it was. *)
Theorem init_on_connected_player_throws
  (data : LottieData.t) (properties : option IconProperties.t)
  (options : option (option bool)) (p : Player.t) (calls : list call) :
  new data properties options = Ok p ->
  let q := perform_all calls p in
  (liveInstances q <= 1)%nat
  /\ forall i, _lottieInstance q = Some i ->
       init q = (Throw (Error "Already connected player!"), q)
       /\ liveInstances q = 1%nat.
Proof.
  intros Hnew q.
  pose proof (perform_all_connected_once calls p
                (new_connected_once _ _ _ _ Hnew)) as Hq.
  fold q in Hq. unfold connected_once in Hq. split.
  - rewrite Hq. destruct (_lottieInstance q); lia.
  - intros i Hi. rewrite Hi in Hq. split; [|exact Hq].
    unfold init, bind, this. simpl. rewrite Hi. reflexivity.
Qed.

End PlayerFacts.

(** ** The properties on the examples *)

Section OnExamples.
Import Player PlayerSpec Examples.
#[local] Existing Instance Reference.realm.
#[local] Existing Instance Reference.coercion.
#[local] Existing Instance Reference.renderer.
#[local] Existing Instance Reference.renderer_laws.

#[local] Existing Instance no_extras.

(** Runs the constructor on an example and continues with the object. *)
Ltac construct H :=
  match goal with
  | |- context [match ?c with Ok _ => _ | Throw _ => _ end] =>
      eassert (H : c = Ok _) by (vm_compute; reflexivity); rewrite H
  end.


(** On the example: the duration of [hover-spending] is positive. *)
Lemma catalogue_durations_positive_witness :
  match new states_document None None with
  | Ok p => num_positive (IconState.duration hover_spending)
  | Throw _ => False
  end.
Proof.
  construct Hnew.
  eapply (catalogue_durations_positive (lib := no_extras)
            states_document None None _ hover_spending Hnew).
  simpl. repeat constructor.
Defined.

(** On the example: the second marker yields [hover_spending]. *)
Lemma default_hover_spending_fast_witness :
  match new states_document None None with
  | Ok p => hover_spending ∈ _availableStates p
  | Throw _ => False
  end.
Proof.
  construct Hnew.
  apply (default_hover_spending_fast (lib := no_extras)
           states_document None None _ (num 70) (num 50) Hnew).
  - simpl. repeat constructor.
  - reflexivity.
Defined.

(** C1, counterexample.  The marker ["bogus:foo"] does not make the
    constructor fail: the player is constructed, with a state named
    ["bogus"]. *)
Lemma bogus_marker_is_parsed_as_a_state :
  match new bogus_document None manual with
  | Ok p => _availableStates p = [bogus]
  | Throw _ => False
  end.
Proof. vm_compute. reflexivity. Qed.

(** On the example: the state of ["bogus:foo"] is in the catalogue. *)
Lemma unrecognized_leading_token_is_the_name_witness :
  match new bogus_document None manual with
  | Ok p => bogus ∈ _availableStates p
  | Throw _ => False
  end.
Proof.
  construct Hnew.
  apply (proj2 (unrecognized_leading_token_is_the_name (lib := no_extras)
                  bogus_document None manual bogus_marker "bogus" ["foo"]
                  ltac:(simpl; repeat constructor)
                  ltac:(reflexivity)
                  ltac:(vm_compute; intros H; inversion H as [|? ? ? H']; inversion H'))
               _ Hnew).
  reflexivity.
Defined.

(** C2, at the failing input.  In a document whose only marker is flagged
    default and has duration 0 the catalogue is empty, and yet [state]
    reads the name of the discarded marker. *)
Theorem state_selected_from_discarded_marker :
  match new zero_duration_document None manual with
  | Ok p => _availableStates p = [] /\ (get_state p).1 = Ok (VStr "intro")
  | Throw _ => False
  end.
Proof. vm_compute. split; reflexivity. Qed.

(** C3, counterexample.  75 is not in the vocabulary; on the legacy
    document it is neither removed from the initial properties nor kept
    out of the document: the stroke control, 50 in the source document,
    is 75 after construction. *)
Lemma legacy_stroke_outside_vocabulary_is_applied :
  includes VOCABULARY (VNum (num 75)) = false
  /\ Utils.get (LottieData.tree legacy_document)
               (Utils.PathString stroke_path) VUndefined
     = Ok (Data (VNum (num 50)))
  /\ match new (lib := legacy_lib) legacy_document
               (Some (only_stroke (VNum (num 75)))) manual with
     | Ok p =>
         IconProperties.stroke (_initialProperties p) = VNum (num 75)
         /\ Utils.get (LottieData.tree (_iconData p))
                      (Utils.PathString stroke_path) VUndefined
            = Ok (Data (VNum (num 75)))
     | Throw _ => False
     end.
Proof. vm_compute. repeat split. Qed.

(** On the examples: 7 is dropped from the icon with states, and 75 is
    written into the legacy document. *)
Lemma initial_stroke_by_document_era_witness :
  match new states_document (Some (only_stroke (VNum (num 7)))) manual with
  | Ok p => truthy (IconProperties.stroke (_initialProperties p)) = false
  | Throw _ => False
  end
  /\ match new (lib := legacy_lib) legacy_document
               (Some (only_stroke (VNum (num 75)))) manual with
     | Ok p =>
         Utils.set (LottieData.tree legacy_document)
                   (Utils.PathString stroke_path)
                   (js_mul (VNum (num 75))
                           (js_div (VNum (num 50)) (VNum (num 50))))
         = Ok (LottieData.tree (_iconData p))
     | Throw _ => False
     end.
Proof.
  split.
  - construct Hnew.
    apply (proj1 (initial_stroke_by_document_era
                    states_document (only_stroke (VNum (num 7))) manual _
                    Hnew)).
    + simpl. discriminate.
    + vm_compute. reflexivity.
  - construct Hnew.
    apply (proj2 (proj2 (initial_stroke_by_document_era (lib := legacy_lib)
                           legacy_document (only_stroke (VNum (num 75)))
                           manual _ Hnew)
                        ltac:(reflexivity))
                 legacy_catalogue
                 (LottieProperty.mk "stroke" stroke_path slider (VNum (num 50))));
      reflexivity.
Defined.

(** C4, at the failing input.  The empty string is the name of no entry
    of the catalogue, which has an entry flagged default, and [state]
    reads [hover-spending]; assigning the empty string to [state] does
    not fall back to the default entry: it selects nothing, and [state]
    reads empty. *)
Theorem empty_name_selects_nothing :
  match new states_document None None with
  | Ok p =>
      state_named (VStr "") (_availableStates p) = None
      /\ default_state (_availableStates p) = Some hover_spending
      /\ (get_state p).1 = Ok (VStr "hover-spending")
      /\ (set_state (VStr "") p).1 = Ok tt
      /\ _state (set_state (VStr "") p).2 = None
      /\ (get_state (set_state (VStr "") p).2).1 = Ok (VStr "")
  | Throw _ => False
  end.
Proof. vm_compute. repeat split. Qed.

(** On the example: [state] reads [hover-spending], the default entry. *)
Lemma empty_state_name_deselects_witness :
  match new states_document None None with
  | Ok p =>
      default_state (_availableStates p) = Some hover_spending
      /\ _state (set_state (VStr "") p).2 = None
      /\ (get_state (set_state (VStr "") p).2).1 = Ok (VStr "")
  | Throw _ => False
  end.
Proof.
  construct Hnew.
  split; [reflexivity|].
  match goal with
  | |- context [set_state _ ?p] =>
      edestruct (empty_state_name_deselects (renderer := Reference.renderer) p)
        as (_ & Hstate & Hreads)
  end.
  - reflexivity.
  - vm_compute. discriminate.
  - split; [exact Hstate | exact Hreads].
Defined.

(** On the example: from [in-reveal], the unknown name ["hover-jump"]
    selects the default state. *)
Lemma unknown_state_name_falls_back_witness :
  match new states_document (Some (IconProperties.mk (VStr "in-reveal") None
                                     VUndefined VUndefined VUndefined VUndefined))
            None with
  | Ok p =>
      exists p', set_state (VStr "hover-jump") p = (Ok tt, p')
                 /\ _state p' = Some hover_spending
  | Throw _ => False
  end.
Proof.
  construct Hnew.
  match goal with
  | |- exists p', set_state _ ?p = _ /\ _ =>
      edestruct (unknown_state_name_falls_back
                   (renderer := Reference.renderer) p)
        with (name := "hover-jump")
        as (p' & Hset & _ & Hstate & _)
  end.
  - reflexivity.
  - discriminate.
  - intros s Hs. simpl in Hs.
    repeat (apply elem_of_cons in Hs as [->|Hs]; [discriminate|]).
    by apply not_elem_of_nil in Hs.
  - vm_compute. discriminate.
  - exists p'. split; [exact Hset|]. rewrite Hstate. reflexivity.
Defined.

(** On the example: playing [hover-spending], a switch to [in-reveal]. *)
Lemma switching_state_while_playing_restarts_witness :
  match new states_document None None with
  | Ok p0 =>
      let p := perform_all [Play] p0 in
      (get_playing p).1 = Ok true
      /\ (get_state p).1 = Ok (VStr "hover-spending")
      /\ (get_playing (set_state (VStr "in-reveal") p).2).1 = Ok true
      /\ (get_frame (set_state (VStr "in-reveal") p).2).1 = Ok (num 0)
  | Throw _ => False
  end.
Proof.
  construct Hnew. cbv zeta.
  match goal with
  | |- context [perform_all [Play] ?p0] =>
      eassert (Hp : perform_all [Play] p0 = _) by (vm_compute; reflexivity);
      rewrite Hp
  end.
  split; [reflexivity|]. split; [reflexivity|].
  match goal with
  | |- context [set_state _ ?p] =>
      edestruct (switching_state_while_playing_restarts
                   (renderer := Reference.renderer) p)
        with (requested := VStr "in-reveal") (s := in_reveal)
        as (Hset & Hplaying & Hframe & _)
  end.
  - reflexivity.
  - reflexivity.
  - vm_compute. discriminate.
  - right. left. split; reflexivity.
  - rewrite Hset. split; [exact Hplaying | exact Hframe].
Defined.

(** On the example: after play, destroy, init and a seek. *)
Lemma init_on_connected_player_throws_witness :
  match new states_document None None with
  | Ok p =>
      let q := perform_all [Play; Destroy; Init; SetFrame (num 3)] p in
      (liveInstances q <= 1)%nat
      /\ init q = (Throw (Error "Already connected player!"), q)
  | Throw _ => False
  end.
Proof.
  construct Hnew. cbv zeta.
  match goal with
  | |- context [perform_all ?cs ?p] =>
      pose proof (init_on_connected_player_throws
                    states_document None None p cs Hnew) as [Hlive Hinit]
  end.
  split; [exact Hlive|].
  eapply Hinit. vm_compute. reflexivity.
Defined.



End OnExamples.

(** ** The path accessor: reading what is there, and writing *)

Section PathAccessorMore.
Import Utils PathSpec.
Context `{realm : Realm} `{coercion : Coercion}.

(** *** [has] and [get] against the keys that are present *)

Lemma has_loop_reaches keys : forall object,
  has_loop object keys = Ok true <-> exists node, reaches object keys node.
Proof.
  induction keys as [|key rest IH]; intros object; simpl.
  - split; [intros _; eexists; apply reaches_here | reflexivity].
  - destruct (isObjectLike object) eqn:Hobj; simpl.
    + rewrite (js_in_objectLike object key Hobj). simpl.
      destruct (lookup object key) as [v|] eqn:Hlook.
      * rewrite bool_decide_eq_true_2 by eauto. simpl.
        rewrite (js_get_objectLike object key Hobj), Hlook. simpl.
        rewrite IH. split.
        -- intros [node Hnode]. exists node.
           eapply reaches_step; [split; eassumption | exact Hnode].
        -- intros [node Hnode].
           inversion Hnode as [|? ? v' ? ? [_ Hmem] Hrest]; subst.
           rewrite Hlook in Hmem. injection Hmem as <-. eauto.
      * rewrite bool_decide_eq_false_2 by (by intros [? ?]). simpl.
        split; [discriminate|].
        intros [node Hnode].
        inversion Hnode as [|? ? v' ? ? [_ Hmem] Hrest]; subst.
        rewrite Hlook in Hmem. discriminate.
    + split; [discriminate|].
      intros [node Hnode].
      inversion Hnode as [|? ? v' ? ? [Hobj' _] Hrest]; subst.
      rewrite Hobj in Hobj'. discriminate.
Qed.

(** [has] answers [true] exactly when every key of the path is found in
    turn, among the keys the node holds itself or among those of its
    prototype chain. *)
Theorem has_true_iff_path_present (object : value) (p : path) :
  has object p = Ok true
  <-> exists node, reaches (Data object) (newPath p) node.
Proof. apply has_loop_reaches. Qed.

Lemma get_loop_reaches keys : forall object node d,
  reaches object keys node ->
  get_loop object keys d
  = Ok (match node with Data VUndefined => Data d | _ => node end).
Proof.
  induction keys as [|key rest IH]; intros object node d Hreach.
  - inversion Hreach; subst. reflexivity.
  - inversion Hreach as [|? ? v ? ? Hmem Hrest]; subst. simpl.
    rewrite (member_objectLike _ _ _ Hmem). simpl.
    rewrite (js_in_member _ _ _ Hmem). simpl.
    rewrite (js_get_member _ _ _ Hmem). simpl.
    apply IH, Hrest.
Qed.


(** A key that an object or array does not hold but finds on its
    prototype chain counts as present: [has] answers [true], although
    its comment speaks of a direct property, and [get] returns the
    inherited member, not the default value. *)
Theorem inherited_key_counts_as_present
  (object : value) (key : string) (found : any builtin) (defaultValue : value) :
  isObjectLike (Data object) = true ->
  own_property object key = None ->
  inherited object key = Some found ->
  has object (PathArray [key]) = Ok true
  /\ get object (PathArray [key]) defaultValue
     = Ok (match found with Data VUndefined => Data defaultValue | _ => found end).
Proof.
  intros Hobj Hown Hinh.
  assert (Hreach : reaches (Data object) [key] found).
  { eapply reaches_step; [|apply reaches_here].
    split; [exact Hobj|]. simpl. rewrite Hown. exact Hinh. }
  split.
  - apply has_loop_reaches. eauto.
  - apply get_loop_reaches, Hreach.
Qed.

(** *** [set] *)

Lemma held_own current key child :
  held current key = Some child -> own_property current key = Some child.
Proof.
  destruct current; simpl; try discriminate; [tauto|].
  destruct (String.eqb key "length"); [discriminate | tauto].
Qed.

(** With a key still to go, [undefined] stops the loop. *)
Lemma set_outside_undefined keys v :
  keys <> [] ->
  exists msg, set_outside (Data VUndefined) keys v = Throw (TypeError msg).
Proof.
  destruct keys as [|key [|key2 rest]]; [contradiction| |]; intros _; simpl;
    eauto.
Qed.

Lemma js_get_absent node key :
  lookup node key = None ->
  js_get node key = Ok (Data VUndefined)
  \/ exists msg, js_get node key = Throw (TypeError msg).
Proof.
  intros Hlook. unfold js_get. rewrite Hlook.
  destruct node as [[]|b]; simpl; eauto.
Qed.

Lemma set_outside_absent node key post v :
  lookup node key = None -> post <> [] ->
  exists msg, set_outside node (key :: post) v = Throw (TypeError msg).
Proof.
  intros Hlook Hpost. destruct post as [|key2 rest]; [contradiction|].
  change (set_outside node (key :: key2 :: rest) v)
    with (next <-? js_get node key; set_outside next (key2 :: rest) v).
  destruct (js_get_absent node key Hlook) as [-> | [msg ->]]; cbn [rbind];
    [|eauto].
  apply set_outside_undefined. discriminate.
Qed.

Lemma set_outside_blocked pre : forall current node key post v,
  reaches current pre node -> lookup node key = None -> post <> [] ->
  exists msg, set_outside current (pre ++ key :: post) v = Throw (TypeError msg).
Proof.
  induction pre as [|k pre IH]; intros current node key post v Hreach Hlook Hpost.
  - inversion Hreach; subst. apply set_outside_absent; assumption.
  - inversion Hreach as [|? ? child ? ? Hmem Hrest]; subst.
    change (set_outside current ((k :: pre) ++ key :: post) v)
      with (set_outside current (k :: (pre ++ key :: post)) v).
    destruct (pre ++ key :: post)%list as [|k2 rest] eqn:Hrest';
      [by destruct pre|].
    change (set_outside current (k :: k2 :: rest) v)
      with (next <-? js_get current k; set_outside next (k2 :: rest) v).
    rewrite (js_get_member _ _ _ Hmem). cbn [rbind].
    rewrite <- Hrest'. eapply IH; eassumption.
Qed.

Lemma set_loop_blocked pre : forall current node key post v,
  reaches (Data current) pre node -> lookup node key = None -> post <> [] ->
  exists msg, set_loop current (pre ++ key :: post) v = Throw (TypeError msg).
Proof.
  induction pre as [|k pre IH]; intros current node key post v Hreach Hlook Hpost.
  - inversion Hreach; subst. destruct post as [|key2 rest]; [contradiction|].
    change (set_loop current ([] ++ key :: key2 :: rest) v)
      with (match held current key with
            | Some child =>
                child' <-? set_loop child (key2 :: rest) v;
                Ok (write_back current key child')
            | None =>
                next <-? js_get (Data current) key;
                _ <-? set_outside next (key2 :: rest) v;
                Ok current
            end).
    destruct (held current key) as [child|] eqn:Hheld.
    + apply held_own in Hheld. simpl in Hlook. rewrite Hheld in Hlook.
      discriminate.
    + destruct (js_get_absent _ key Hlook) as [-> | [msg ->]]; cbn [rbind];
        [|eauto].
      destruct (set_outside_undefined (key2 :: rest) v) as [msg ->];
        [discriminate|]. cbn [rbind]. eauto.
  - inversion Hreach as [|? ? child ? ? Hmem Hrest]; subst.
    change (set_loop current ((k :: pre) ++ key :: post) v)
      with (set_loop current (k :: (pre ++ key :: post)) v).
    destruct (pre ++ key :: post)%list as [|k2 rest] eqn:Hrest';
      [by destruct pre|].
    change (set_loop current (k :: k2 :: rest) v)
      with (match held current k with
            | Some child =>
                child' <-? set_loop child (k2 :: rest) v;
                Ok (write_back current k child')
            | None =>
                next <-? js_get (Data current) k;
                _ <-? set_outside next (k2 :: rest) v;
                Ok current
            end).
    rewrite <- Hrest'.
    destruct (held current k) as [c|] eqn:Hheld.
    + apply held_own in Hheld. destruct Hmem as [_ Hmem]. simpl in Hmem.
      rewrite Hheld in Hmem. injection Hmem as <-.
      destruct (IH c node key post v Hrest Hlook Hpost) as [msg ->].
      cbn [rbind]. eauto.
    + rewrite (js_get_member _ _ _ Hmem). cbn [rbind].
      destruct (set_outside_blocked pre child node key post v Hrest Hlook Hpost)
        as [msg ->].
      cbn [rbind]. eauto.
Qed.

(** [set] does not create what is missing on the way: when the traversal
    comes, before the last key, to a key that is absent from the node
    and from its prototype chain, the next step indexes [undefined] and
    [set] raises a [TypeError]. *)
Theorem set_raises_on_a_missing_parent
  (object : value) (p : path) (v : value)
  (pre : list string) (key : string) (post : list string)
  (node : any builtin) :
  newPath p = (pre ++ key :: post)%list ->
  post <> [] ->
  reaches (Data object) pre node ->
  lookup node key = None ->
  exists msg, set object p v = Throw (TypeError msg).
Proof.
  intros Hpath Hpost Hreach Hlook. unfold set. rewrite Hpath.
  eapply set_loop_blocked; eassumption.
Qed.
End PathAccessorMore.

(** ** The listener registry *)

Section EventFacts.
Import Events.
Context {handler : Type} `{EqDecision handler}.

Lemma remove_loop_spec (h : handler) fuel : forall n l,
  (n <= length l)%nat -> (length l - n < fuel)%nat ->
  remove_loop fuel h (Z.of_nat n) (Z.of_nat (length l)) l
  = Some (take n l ++ filter (fun x => x <> h) (drop n l))%list.
Proof.
  induction fuel as [|fuel IH]; intros n l Hn Hfuel; [lia|].
  simpl. destruct (Z.ltb_spec (Z.of_nat n) (Z.of_nat (length l))) as [Hlt|Hge].
  - assert (Hn' : (n < length l)%nat) by lia.
    destruct (lookup_lt_is_Some_2 l n Hn') as [x Hx].
    rewrite Nat2Z.id, Hx.
    rewrite (drop_S l x n Hx).
    destruct (decide (x = h)) as [->|Hne].
    + rewrite bool_decide_eq_true_2 by reflexivity.
      replace (Z.of_nat n - 1 + 1)%Z with (Z.of_nat n) by lia.
      assert (Hlen : length (splice1 n l) = (length l - 1)%nat).
      { unfold splice1. rewrite length_app, length_take, length_drop. lia. }
      replace (Z.of_nat (length l) - 1)%Z with (Z.of_nat (length (splice1 n l)))
        by lia.
      rewrite IH by lia.
      unfold splice1. rewrite take_app_le by (rewrite length_take; lia).
      rewrite take_take, Nat.min_id.
      rewrite drop_app_ge by (rewrite length_take; lia).
      rewrite length_take, Nat.min_l, Nat.sub_diag by lia. simpl.
      rewrite filter_cons_False by (intros Hx'; by apply Hx'). reflexivity.
    + rewrite bool_decide_eq_false_2 by congruence.
      replace (Z.of_nat n + 1)%Z with (Z.of_nat (S n)) by lia.
      rewrite IH by lia.
      rewrite (take_S_r l n x Hx), filter_cons_True by exact Hne.
      rewrite <- app_assoc. reflexivity.
  - assert (n = length l) as -> by lia.
    rewrite take_ge, drop_all by lia. simpl. rewrite app_nil_r. reflexivity.
Qed.

Lemma remove_loop_filter (h : handler) l :
  remove_loop (S (length l)) h 0 (Z.of_nat (length l)) l
  = Some (filter (fun x => x <> h) l).
Proof. apply (remove_loop_spec h (S (length l)) 0%nat l); lia. Qed.

Lemma removeEventListener_handlers name (h : handler) reg l :
  reg name = Handlers l ->
  removeEventListener name (Some h) reg
  = Some (store name (match filter (fun x => x <> h) l with
                      | [] => Null
                      | l' => Handlers l'
                      end) reg).
Proof.
  intros Hl. unfold removeEventListener. rewrite Hl, remove_loop_filter.
  cbn [mbind option_bind]. destruct (filter _ l); reflexivity.
Qed.

(** Removing a handler from an event removes every registration of it for
    that event, keeps the other handlers in their order, leaves the other
    events alone, and stores [null] instead of an empty array. *)
Theorem removeEventListener_removes_every_registration
  (name : EventName) (h : handler) (reg : registry handler) (l : list handler) :
  reg name = Handlers l ->
  exists reg',
    removeEventListener name (Some h) reg = Some reg'
    /\ callbacks_of (reg' name) = filter (fun x => x <> h) l
    /\ reg' name <> Handlers []
    /\ forall other, other <> name -> reg' other = reg other.
Proof.
  intros Hl. rewrite (removeEventListener_handlers name h reg l Hl).
  eexists. split; [reflexivity|]. unfold store.
  rewrite decide_True by reflexivity.
  split; [destruct (filter _ l); reflexivity|].
  split; [destruct (filter _ l); discriminate|].
  intros other Hother. rewrite decide_False by exact Hother. reflexivity.
Qed.

Lemma addEventListener_same name (h : handler) reg :
  addEventListener name h reg name
  = Handlers (callbacks_of (reg name) ++ [h])%list.
Proof.
  unfold addEventListener, store.
  destruct (reg name) eqn:Hreg; simpl; rewrite ?decide_True by reflexivity;
    simpl; rewrite ?Hreg; reflexivity.
Qed.

Lemma addEventListener_other name (h : handler) reg other :
  other <> name -> addEventListener name h reg other = reg other.
Proof.
  intros Hne. unfold addEventListener, store.
  destruct (reg name); simpl; rewrite ?decide_False by exact Hne; reflexivity.
Qed.

Lemma perform_no_empty_array c (reg : registry handler) :
  no_empty_array reg ->
  exists reg', perform c reg = Some reg' /\ no_empty_array reg'.
Proof.
  intros Hreg. destruct c as [name h|name [h|]]; unfold perform.
  - eexists. split; [reflexivity|]. intros n.
    destruct (decide (n = name)) as [->|Hn].
    + rewrite addEventListener_same. intros [= Heq].
      by destruct (callbacks_of (reg name)).
    + rewrite addEventListener_other by exact Hn. apply Hreg.
  - unfold removeEventListener. destruct (reg name) as [| |l] eqn:Hl; eauto.
    rewrite remove_loop_filter. cbn [mbind option_bind]. eexists. split; [reflexivity|].
    intros n. unfold store. destruct (decide (n = name)); [|apply Hreg].
    destruct (filter _ l); discriminate.
  - eexists. split; [reflexivity|]. intros n. unfold store.
    destruct (decide (n = name)); [discriminate | apply Hreg].
Qed.

(** Whatever listeners are added and removed, both members return, and no
    event ever holds an empty array of handlers. *)
Theorem registry_never_holds_an_empty_array (cs : list (call (handler := handler))) :
  exists reg, perform_all cs empty = Some reg /\ no_empty_array reg.
Proof.
  assert (Hgen : forall reg0, no_empty_array reg0 ->
            exists reg, perform_all cs reg0 = Some reg /\ no_empty_array reg).
  { induction cs as [|c rest IH]; intros reg0 H0; simpl; [eauto|].
    destruct (perform_no_empty_array c reg0 H0) as (reg1 & -> & H1). simpl.
    apply IH, H1. }
  apply Hgen. intros name. discriminate.
Qed.

(** Subscribing a handler that was not registered for the event and then
    calling the function [addEventListener] returned restores the handlers
    of the event. *)
Theorem unsubscribe_undoes_addEventListener
  (name : EventName) (h : handler) (reg : registry handler) :
  h ∉ callbacks_of (reg name) ->
  exists reg',
    unsubscribe name h (addEventListener name h reg) = Some reg'
    /\ callbacks_of (reg' name) = callbacks_of (reg name)
    /\ forall other, other <> name -> reg' other = reg other.
Proof.
  intros Hfresh.
  assert (Hsame : filter (fun x => x <> h) (callbacks_of (reg name) ++ [h])%list
                  = callbacks_of (reg name)).
  { rewrite filter_app, filter_cons_False, filter_nil, app_nil_r
      by (intros Hx; by apply Hx).
    clear -Hfresh. induction (callbacks_of (reg name)) as [|x l IH]; [reflexivity|].
    rewrite filter_cons_True by (intros ->; apply Hfresh; left).
    f_equal. apply IH. intros Hin. apply Hfresh. by right. }
  unfold unsubscribe.
  rewrite (removeEventListener_handlers name h _ _
             (addEventListener_same name h reg)), Hsame.
  eexists. split; [reflexivity|]. unfold store. split.
  - rewrite decide_True by reflexivity.
    destruct (callbacks_of (reg name)); reflexivity.
  - intros other Hne. rewrite decide_False by exact Hne.
    apply addEventListener_other, Hne.
Qed.
End EventFacts.

(** ** More on the player *)

Section PlayerMore.
Import Player PlayerSpec TransportSpec.
Context `{realm : Realm} `{coercion : Coercion}
        `{renderer : Lottie.Renderer} `{lib : !LottieLib}.

#[local] Notation "x <- m ;; k" := (bind m (fun x => k))
  (at level 100, m at next level, right associativity).
#[local] Notation "m ;;; k" := (bind m (fun _ => k))
  (at level 100, right associativity).

Create HintDb keep discriminated.
#[local] Hint Resolve preserves_ret preserves_throw preserves_lift
  preserves_this preserves_when preserves_connected preserves_on_instance
  preserves_on_target preserves_get_lottieProperties preserves_refresh
  preserves_apply_colors preserves_set_colors preserves_set_stroke
  blind_availableStates blind_iconData blind_initialProperties blind_state
  blind_connection : keep.

(** Splits a computation along its binds and case distinctions. *)
Ltac keeps :=
  repeat match goal with
    | |- preserves _ (bind _ _) => apply preserves_bind; [|intros ?]
    | |- preserves _ (ret _) => apply preserves_ret
    | |- preserves _ (throw _) => apply preserves_throw
    | |- preserves _ (lift _) => apply preserves_lift
    | |- preserves _ this => apply preserves_this
    | |- preserves _ (when _ _) => apply preserves_when
    | |- preserves _ (assign _) => apply preserves_assign; intros ?; reflexivity
    | |- preserves _ (match ?x with _ => _ end) => destruct x
    | |- preserves _ (let _ := _ in _) => cbv zeta
    | |- preserves _ _ => solve [eauto with keep]
    end.

(** *** Before [init] and after [destroy] *)

Lemma connected_none (p : Player.t) :
  _lottieInstance p = None -> connected p = (Throw NOT_INITIALIZED, p).
Proof. intros Hi. unfold connected, bind, this. simpl. rewrite Hi. reflexivity. Qed.

(** Every transport member called on a player that holds no instance
    throws ['Player not initialized'] and leaves the object as it was. *)
Theorem transport_needs_init (p : Player.t) (c : call) :
  _lottieInstance p = None ->
  needs_instance c = true ->
  perform c p = (Throw NOT_INITIALIZED, p).
Proof.
  intros Hi Hc. destruct c; try discriminate; simpl;
    unfold play, playFromStart, pause, stop, seekToStart, seekToEnd, set_frame,
      get_frameCount, seek, switchSegment, set_state, set_direction, set_loop;
    unfold bind; rewrite (connected_none p Hi); reflexivity.
Qed.

(** [destroy] on a connected player returns, drops the instance and the
    memoised properties, clears [ready] and keeps everything else; called
    again, it throws ['Not connected player!']. *)
Theorem destroy_disconnects (p : Player.t) (i : Lottie.instance) :
  _lottieInstance p = Some i ->
  let q := (destroy p).2 in
  (destroy p).1 = Ok tt
  /\ _lottieInstance q = None /\ _ready q = false /\ _lottieProperties q = None
  /\ (_state q, construction q, _direction q, _speed q)
     = (_state p, construction p, _direction p, _speed p)
  /\ destroy q = (Throw (Error "Not connected player!"), q).
Proof.
  intros Hi. unfold destroy, bind, this, assign, throw. simpl. rewrite Hi.
  simpl. repeat split.
Qed.

(** No public member changes the catalogue of states, the document or the
    initial properties. *)
Theorem calls_keep_the_construction (p : Player.t) (calls : list call) :
  construction (perform_all calls p) = construction p.
Proof.
  revert p. induction calls as [|c rest IH]; intros p; simpl; [reflexivity|].
  rewrite IH.
  assert (Hc : preserves construction (perform c)); [|apply Hc].
  assert (Hblind : transport_blind construction) by (split; reflexivity).
  destruct c; simpl;
    unfold play, playFromStart, pause, stop, seekToStart, seekToEnd, set_frame,
      get_frameCount, seek, set_properties, set_state, get_state, get_playing,
      switchSegment, set_speed, set_direction, set_loop, pause, play, destroy;
    try (apply preserves_init; [exact Hblind | reflexivity..]);
    keeps.
Qed.

(** *** Assigning [state] *)

(** Assigning to [state] the value it already reads is a no-op: the
    segment is not reset and a playing animation is not restarted. *)
Theorem set_state_same_value_is_a_no_op
  (p : Player.t) (i : Lottie.instance) (requested : value) :
  _lottieInstance p = Some i ->
  (get_state p).1 = Ok requested ->
  set_state requested p = (Ok tt, p).
Proof.
  intros Hi Hcur. unfold set_state. unfold bind at 1.
  rewrite (connected_some p i Hi). unfold bind at 1.
  assert (Hget : get_state p = (Ok requested, p)).
  { revert Hcur. unfold get_state, bind, this, ret. simpl.
    destruct (_state p); simpl; intros [= <-]; reflexivity. }
  rewrite Hget.
  assert (strict_eq requested requested = true) as ->; [|reflexivity].
  revert Hcur. unfold get_state, bind, this, ret. simpl.
  destruct (_state p) as [s|]; simpl; intros [= <-]; [|reflexivity].
  destruct (IconState.name s); simpl; [apply String.eqb_refl | reflexivity].
Qed.

(** A state switch on a paused player leaves it paused, at frame 0 of the
    segment. *)
Theorem switching_state_while_paused_stays_paused `{!Lottie.RendererLaws}
  (p : Player.t) (i : Lottie.instance) (requested : value) :
  _lottieInstance p = Some i ->
  Lottie.isPaused i = true ->
  (get_state p).1 <> Ok requested ->
  let p' := (set_state requested p).2 in
  (set_state requested p).1 = Ok tt
  /\ (get_playing p').1 = Ok false
  /\ (get_frame p').1 = Ok (num 0).
Proof.
  intros Hi Hpaused Hdiff.
  destruct (strict_eq_differs p requested Hdiff) as (current & Hcur & Hs).
  pose proof (set_state_switch p i requested current Hi Hcur Hs) as Hset.
  cbv zeta in Hset. rewrite Hpaused in Hset. rewrite Hset. cbv zeta.
  split; [reflexivity|].
  unfold get_playing, get_frame, bind, connected, this, ret. simpl.
  rewrite Lottie.goToAndStop_isPaused, Lottie.goToAndStop_currentFrame.
  split; reflexivity.
Qed.

(** Assigning [null] to [state] selects the first entry flagged default,
    and nothing when no entry is flagged. *)
Theorem null_state_selects_the_default
  (p : Player.t) (i : Lottie.instance) :
  _lottieInstance p = Some i ->
  (set_state VNull p).1 = Ok tt
  /\ _state (set_state VNull p).2 = default_state (_availableStates p).
Proof.
  intros Hi. destruct (get_state_returns p) as (current & Hcur & _).
  assert (Hs : strict_eq VNull current = false).
  { revert Hcur. unfold get_state, bind, this, ret. simpl.
    destruct (_state p) as [s|]; simpl; intros [= <-]; [|reflexivity].
    destruct (IconState.name s); reflexivity. }
  pose proof (set_state_switch p i VNull current Hi Hcur Hs) as Hset.
  cbv zeta in Hset. rewrite Hset. split; reflexivity.
Qed.

(** After an assignment to [state] that is not a no-op, the selected state
    is an entry of the catalogue that bears the requested name or is
    flagged default. *)
Theorem set_state_selects_from_the_catalogue
  (p : Player.t) (i : Lottie.instance) (requested : value) (s : IconState.t) :
  _lottieInstance p = Some i ->
  (get_state p).1 <> Ok requested ->
  _state (set_state requested p).2 = Some s ->
  s ∈ _availableStates p
  /\ (name_is (IconState.name s) requested = true \/ IconState.default s = true).
Proof.
  intros Hi Hdiff.
  destruct (strict_eq_differs p requested Hdiff) as (current & Hcur & Hs).
  pose proof (set_state_switch p i requested current Hi Hcur Hs) as Hset.
  cbv zeta in Hset. rewrite Hset. simpl _state. unfold resolved.
  assert (Hdefault : default_state (_availableStates p) = Some s ->
            s ∈ _availableStates p
            /\ (name_is (IconState.name s) requested = true
                \/ IconState.default s = true)).
  { intros Hd. apply (head_filter_Some IconState.default) in Hd. tauto. }
  destruct (Utils.isNil requested); [exact Hdefault|].
  destruct (truthy requested); [|discriminate].
  destruct (state_named requested (_availableStates p)) as [s'|] eqn:Hnamed;
    [|exact Hdefault].
  intros [= <-].
  apply (head_filter_Some
           (fun c => name_is (IconState.name c) requested)) in Hnamed.
  tauto.
Qed.

(** *** Seeking *)

(** [seekToEnd] moves to frame [max(0, frameCount)] and leaves the player
    paused. *)
Theorem seekToEnd_stops_at_the_last_frame `{!Lottie.RendererLaws}
  (p : Player.t) (i : Lottie.instance) :
  _lottieInstance p = Some i ->
  let p' := (seekToEnd p).2 in
  (seekToEnd p).1 = Ok tt
  /\ (get_frame p').1
     = Ok (num_max (num 0) (num_sub (Lottie.getDuration true i) (num 1)))
  /\ (get_playing p').1 = Ok false.
Proof.
  intros Hi.
  assert (Hrun : seekToEnd p
                 = (Ok tt,
                    with_lottieInstance
                      (Some (Lottie.goToAndStop
                               (num_max (num 0)
                                  (num_sub (Lottie.getDuration true i) (num 1)))
                               true i)) p)).
  { unfold seekToEnd, get_frameCount, bind.
    rewrite (connected_some p i Hi). unfold ret.
    apply seek_some, Hi. }
  rewrite Hrun. cbv zeta. split; [reflexivity|].
  unfold get_playing, get_frame, bind, connected, this, ret. simpl.
  rewrite Lottie.goToAndStop_isPaused, Lottie.goToAndStop_currentFrame.
  split; reflexivity.
Qed.

(** *** The state selected by the constructor *)

Lemma selection_snoc requested states s current :
  selection requested (states ++ [s]) current
  = select requested s (selection requested states current).
Proof. unfold selection. rewrite fold_left_app. reflexivity. Qed.

Lemma selection_no_match name states : forall current,
  (forall s, s ∈ states -> IconState.name s <> Some name) ->
  selection (VStr name) states current = current.
Proof.
  induction states as [|s rest IH]; intros current Hnone; [reflexivity|].
  change (selection (VStr name) (s :: rest) current)
    with (selection (VStr name) rest (select (VStr name) s current)).
  rewrite IH by (intros x Hx; apply Hnone; by right).
  unfold select. destruct (name_is _ _) eqn:Hn.
  - apply name_is_string in Hn. exfalso. exact (Hnone s ltac:(left) Hn).
  - rewrite andb_false_r. reflexivity.
Qed.

Lemma selection_match name states : forall current,
  (exists s, s ∈ states /\ IconState.name s = Some name) ->
  exists s, selection (VStr name) states current = Some s
            /\ s ∈ states /\ IconState.name s = Some name.
Proof.
  induction states as [|s rest IH] using rev_ind; intros current (x & Hx & Hn);
    [by apply not_elem_of_nil in Hx|].
  rewrite selection_snoc. unfold select.
  destruct (name_is (IconState.name s) (VStr name)) eqn:Hs.
  - exists s. split; [reflexivity|].
    split; [apply elem_of_app; right; by left|].
    by apply name_is_string.
  - rewrite andb_false_r.
    apply elem_of_app in Hx as [Hx|Hx].
    + destruct (IH current) as (y & Hy & Hin & Hname); [eauto|].
      exists y. split; [exact Hy|].
      split; [apply elem_of_app; by left | exact Hname].
    + apply list_elem_of_singleton in Hx as ->.
      apply name_is_string in Hn. congruence.
Qed.

Lemma modern_setup_returns q :
  (modern_setup q).1 = Ok tt
  /\ _iconData (modern_setup q).2 = _iconData q
  /\ _state (modern_setup q).2
     = if truthy (IconProperties.state (_initialProperties q))
          && negb (bool_decide (is_Some (_state q)))
       then default_state (_availableStates q)
       else _state q.
Proof.
  unfold modern_setup, bind, this, when, assign, ret. simpl.
  destruct (truthy (IconProperties.stroke _) && _); simpl;
    destruct (truthy (IconProperties.state _) && _); simpl; auto.
Qed.

Lemma modern_construction data properties options p :
  new data properties options = Ok p ->
  _availableStates p <> [] ->
  let q := parsed data properties (blank data) in
  _iconData p = data
  /\ _state p
     = if truthy (IconProperties.state (_initialProperties q))
          && negb (bool_decide (is_Some (_state q)))
       then default_state (_availableStates p)
       else _state q.
Proof.
  intros Hnew Hne q.
  pose proof (new_availableStates _ _ _ _ Hnew) as Hcat.
  apply new_constructor in Hnew. fold q in Hnew.
  assert (Hq : _availableStates q = catalogue_of data) by reflexivity.
  rewrite (branches_modern options q) in Hnew by (rewrite Hq, <- Hcat; exact Hne).
  destruct (modern_setup_returns q) as (Hok & Hdata & Hstate).
  pose proof (init_keeps options (modern_setup q).2) as Hkeep.
  unfold bind in Hnew. destruct (modern_setup q) as [[[]|e] q1]; [|discriminate].
  simpl in *. rewrite Hnew in Hkeep. simpl in Hkeep.
  injection Hkeep as Hd _ Hs. rewrite Hd, Hs, Hdata, Hstate, Hcat.
  split; reflexivity.
Qed.

(** Constructing a player on a document with states leaves the document
    as it was supplied. *)
Theorem modern_document_is_kept
  (data : LottieData.t) (properties : option IconProperties.t)
  (options : option (option bool)) (p : Player.t) :
  new data properties options = Ok p ->
  _availableStates p <> [] ->
  _iconData p = data.
Proof. intros Hnew Hne. exact (proj1 (modern_construction _ _ _ _ Hnew Hne)). Qed.

(** In a document with states, an initial state name that no marker bears
    selects the first catalogue entry flagged default, and nothing when no
    entry is flagged. *)
Theorem unknown_initial_state_falls_back
  (data : LottieData.t) (properties : IconProperties.t)
  (options : option (option bool)) (p : Player.t) (name : string) :
  new data (Some properties) options = Ok p ->
  _availableStates p <> [] ->
  IconProperties.state properties = VStr name ->
  name <> "" ->
  (forall c, c ∈ default [] (LottieData.markers data) ->
             IconState.name (state_of_marker c) <> Some name) ->
  _state p = default_state (_availableStates p).
Proof.
  intros Hnew Hne Hreq Hname Hnone.
  rewrite (proj2 (modern_construction _ _ _ _ Hnew Hne)).
  simpl. rewrite Hreq. simpl.
  destruct (String.eqb_spec name ""); [contradiction|]. simpl.
  rewrite selection_no_match; [reflexivity|].
  intros s Hs. apply list_elem_of_fmap in Hs as (c & -> & Hc). by apply Hnone.
Qed.

(** When every marker has a positive duration, an initial state name that
    a marker bears selects a catalogue entry of that name, and [state]
    reads the name. *)
Theorem known_initial_state_is_selected
  (data : LottieData.t) (properties : IconProperties.t)
  (options : option (option bool)) (p : Player.t) (name : string) :
  new data (Some properties) options = Ok p ->
  IconProperties.state properties = VStr name ->
  (forall c, c ∈ default [] (LottieData.markers data) ->
             num_positive (Marker.dr c)) ->
  (exists c, c ∈ default [] (LottieData.markers data)
             /\ IconState.name (state_of_marker c) = Some name) ->
  exists s, _state p = Some s
            /\ s ∈ _availableStates p
            /\ IconState.name s = Some name
            /\ (get_state p).1 = Ok (VStr name).
Proof.
  intros Hnew Hreq Hpos (c & Hc & Hn).
  pose proof (new_availableStates _ _ _ _ Hnew) as Hcat.
  destruct (selection_match name
              (map state_of_marker (default [] (LottieData.markers data))) None)
    as (s & Hsel & Hin & Hs).
  { exists (state_of_marker c). split; [|exact Hn].
    apply list_elem_of_fmap. eauto. }
  assert (Hs_cat : s ∈ _availableStates p).
  { rewrite Hcat. apply elem_of_catalogue.
    apply list_elem_of_fmap in Hin as (c' & -> & Hc').
    split; [|eauto]. rewrite (proj2 (state_of_marker_times c')). by apply Hpos. }
  assert (Hne : _availableStates p <> []) by (intros He; rewrite He in Hs_cat;
                                             by apply not_elem_of_nil in Hs_cat).
  pose proof (proj2 (modern_construction _ _ _ _ Hnew Hne)) as Hstate.
  simpl in Hstate. rewrite Hreq, Hsel in Hstate. simpl in Hstate.
  rewrite andb_false_r in Hstate.
  exists s. split; [exact Hstate|]. split; [exact Hs_cat|]. split; [exact Hs|].
  unfold get_state, bind, this, ret. simpl. rewrite Hstate, Hs. reflexivity.
Qed.

Lemma modern_setup_without_delete (q : Player.t) :
  truthy (IconProperties.stroke (_initialProperties q))
  && negb (includes VOCABULARY (IconProperties.stroke (_initialProperties q)))
  = false ->
  (modern_setup q).1 = Ok tt.
Proof.
  intros Hstroke. unfold modern_setup. unfold bind at 1, this at 1.
  rewrite Hstroke. unfold when at 1, bind at 1, ret at 1.
  unfold bind, this, when, assign, ret.
  destruct (truthy (IconProperties.state _) && _); reflexivity.
Qed.

(** On a document with states, construction without auto-initialisation
    returns whenever the initial stroke is absent (falsy) or within the
    vocabulary, that is, whenever the constructor has no stroke to delete
    from the properties object it was given. *)
Theorem modern_construction_returns
  (data : LottieData.t) (properties : option IconProperties.t)
  (options : option (option bool)) :
  catalogue_of data <> [] ->
  autoInit options = false ->
  truthy (IconProperties.stroke (default IconProperties.empty properties))
  && negb (includes VOCABULARY
             (IconProperties.stroke (default IconProperties.empty properties)))
  = false ->
  exists p, new data properties options = Ok p.
Proof.
  intros Hne Hauto Hstroke. unfold new. rewrite constructor_parsed.
  rewrite branches_modern by exact Hne. rewrite Hauto.
  unfold bind, when at 1, ret.
  pose proof (modern_setup_without_delete
                (parsed data properties (blank data)) Hstroke) as Hok.
  destruct (modern_setup _) as [[[]|e] q]; [eauto | discriminate].
Qed.

(** *** The customisable properties of a legacy document *)

Lemma invariant_ret {A} (I : Player.t -> Prop) (a : A) : invariant I (ret a).
Proof. intros p Hp. exact Hp. Qed.

Lemma invariant_throw {A} (I : Player.t -> Prop) e : invariant I (@throw _ A e).
Proof. intros p Hp. exact Hp. Qed.

Lemma invariant_lift {A} (I : Player.t -> Prop) (r : result A) :
  invariant I (lift r).
Proof. intros p Hp. exact Hp. Qed.

Lemma invariant_this (I : Player.t -> Prop) : invariant I this.
Proof. intros p Hp. exact Hp. Qed.

Lemma invariant_bind {A B} (I : Player.t -> Prop) (m : M A) (k : A -> M B) :
  invariant I m -> (forall a, invariant I (k a)) -> invariant I (bind m k).
Proof.
  intros Hm Hk p Hp. unfold bind. specialize (Hm p Hp).
  destruct (m p) as [[a|e] p']; simpl in *; [by apply Hk | exact Hm].
Qed.

Lemma invariant_assign (I : Player.t -> Prop) (g : Player.t -> Player.t) :
  (forall p, I p -> I (g p)) -> invariant I (assign g).
Proof. intros Hg p Hp. by apply Hg. Qed.

Lemma invariant_when (I : Player.t -> Prop) b m :
  invariant I m -> invariant I (when b m).
Proof. intros Hm. destruct b; [exact Hm | apply invariant_ret]. Qed.

Lemma hidden_get_lottieProperties :
  invariant legacy_controls_hidden get_lottieProperties.
Proof.
  intros p [Hlegacy Hmemo]. unfold get_lottieProperties, bind, this, when, assign, ret.
  simpl. destruct (_lottieProperties p) as [l|] eqn:Hl; simpl.
  - split; [exact Hlegacy|]. intros l0 Hl0. apply Hmemo. congruence.
  - split; [exact Hlegacy|]. simpl. intros l.
    rewrite bool_decide_eq_true_2 by exact Hlegacy.
    destruct (extractLottieProperties (_iconData p) true) as [extracted|];
      simpl; [|discriminate].
    intros [= <-]. apply Forall_forall. intros c Hc.
    apply list_elem_of_filter in Hc as [Hc _]. by apply Is_true_true.
Qed.

Create HintDb hidden discriminated.
#[local] Hint Resolve invariant_ret invariant_throw invariant_lift
  invariant_this invariant_when hidden_get_lottieProperties : hidden.

(** Splits a computation as [keeps] does; an assignment keeps the
    property when it touches neither the catalogue of states nor the
    memoised properties, or when it clears the latter. *)
Ltac hides :=
  repeat match goal with
    | |- invariant _ (bind _ _) => apply invariant_bind; [|intros ?]
    | |- invariant _ (ret _) => apply invariant_ret
    | |- invariant _ (throw _) => apply invariant_throw
    | |- invariant _ (lift _) => apply invariant_lift
    | |- invariant _ this => apply invariant_this
    | |- invariant _ (when _ _) => apply invariant_when
    | |- invariant _ (assign _) =>
        apply invariant_assign; intros ? [? ?];
        (split; [assumption | first [assumption | intros ?; discriminate]])
    | |- invariant _ (match ?x with _ => _ end) => destruct x
    | |- invariant _ (let _ := _ in _) => cbv zeta
    | |- invariant _ _ => solve [eauto with hidden]
    end.

Lemma hidden_on_instance g : invariant legacy_controls_hidden (on_instance g).
Proof. unfold on_instance. hides. Qed.

Lemma hidden_connected : invariant legacy_controls_hidden connected.
Proof. unfold connected. hides. Qed.

Lemma hidden_on_target g r : invariant legacy_controls_hidden (on_target g r).
Proof. unfold on_target. hides. Qed.

#[local] Hint Resolve hidden_on_instance hidden_connected hidden_on_target
  : hidden.

Lemma hidden_refresh : invariant legacy_controls_hidden refresh.
Proof. unfold refresh. hides. Qed.

#[local] Hint Resolve hidden_refresh : hidden.

Lemma hidden_apply_colors entries :
  invariant legacy_controls_hidden (apply_colors entries).
Proof.
  induction entries as [|[key v] rest IH]; simpl; [apply invariant_ret|]. hides.
Qed.

#[local] Hint Resolve hidden_apply_colors : hidden.

Lemma hidden_set_colors colors : invariant legacy_controls_hidden (set_colors colors).
Proof. unfold set_colors. hides. Qed.

Lemma hidden_set_stroke stroke : invariant legacy_controls_hidden (set_stroke stroke).
Proof. unfold set_stroke. hides. Qed.

#[local] Hint Resolve hidden_set_colors hidden_set_stroke : hidden.

Lemma hidden_init : invariant legacy_controls_hidden init.
Proof. unfold init. hides. Qed.

Lemma hidden_perform c : invariant legacy_controls_hidden (perform c).
Proof.
  destruct c; simpl; try apply hidden_init;
    unfold play, playFromStart, pause, stop, seekToStart, seekToEnd, set_frame,
      get_frameCount, seek, set_properties, set_state, get_state, get_playing,
      switchSegment, set_speed, set_direction, set_loop, pause, play, destroy;
    hides.
Qed.

Lemma hidden_perform_all calls : forall p,
  legacy_controls_hidden p -> legacy_controls_hidden (perform_all calls p).
Proof.
  induction calls as [|c rest IH]; intros p Hp; simpl; [exact Hp|].
  apply IH, hidden_perform, Hp.
Qed.

Lemma hidden_new data properties options p :
  new data properties options = Ok p ->
  _availableStates p = [] ->
  legacy_controls_hidden p.
Proof.
  intros Hnew Hlegacy.
  pose proof (new_availableStates _ _ _ _ Hnew) as Hcat.
  apply new_constructor in Hnew.
  assert (Hq : legacy_controls_hidden (parsed data properties (blank data))).
  { split; [simpl; rewrite <- Hcat; exact Hlegacy | discriminate]. }
  assert (Hb : invariant legacy_controls_hidden (branches options)).
  { unfold branches, modern_setup, legacy_setup, scale_against_baseline,
      update_iconData.
    pose proof hidden_init. hides. }
  specialize (Hb _ Hq). rewrite Hnew in Hb. exact Hb.
Qed.

Lemma get_lottieProperties_memo (q : Player.t) :
  exists l,
    (get_lottieProperties q).1 = Ok l
    /\ (l = [] \/ _lottieProperties (get_lottieProperties q).2 = Some l).
Proof.
  unfold get_lottieProperties, bind, this, when, assign, ret. simpl.
  destruct (_lottieProperties q) as [l|] eqn:Hl; simpl.
  - rewrite Hl. simpl. eauto.
  - match goal with
    | |- context [default [] ?v] => destruct v as [l|]; simpl; eauto
    end.
Qed.

(** On a document without states, whatever has been called on the player,
    [lottieProperties] returns and lists no property named [scale], [axis]
    or [stroke], nor one whose name starts with [state-]. *)
Theorem legacy_controls_are_never_listed
  (data : LottieData.t) (properties : option IconProperties.t)
  (options : option (option bool)) (p : Player.t) (calls : list call) :
  new data properties options = Ok p ->
  _availableStates p = [] ->
  exists l,
    (get_lottieProperties (perform_all calls p)).1 = Ok l
    /\ forall c, c ∈ l ->
         LottieProperty.name c <> "scale" /\ LottieProperty.name c <> "axis"
         /\ LottieProperty.name c <> "stroke"
         /\ startsWith (LottieProperty.name c) "state-" = false.
Proof.
  intros Hnew Hlegacy.
  pose proof (hidden_perform_all calls p (hidden_new _ _ _ _ Hnew Hlegacy)) as Hq.
  pose proof (hidden_get_lottieProperties _ Hq) as [_ Hafter].
  destruct (get_lottieProperties_memo (perform_all calls p)) as (l & Hl & Hmemo).
  exists l. split; [exact Hl|]. intros c Hc.
  assert (Hok : not_legacy_control c = true).
  { destruct Hmemo as [->|Hmemo]; [by apply not_elem_of_nil in Hc|].
    specialize (Hafter l Hmemo). rewrite Forall_forall in Hafter. by apply Hafter. }
  unfold not_legacy_control in Hok.
  repeat (apply andb_prop in Hok as [Hok ?]).
  repeat match goal with
    | H : negb _ = true |- _ => apply negb_true_iff in H
    end.
  repeat split; try (intros Heq; rewrite Heq in *; discriminate).
  assumption.
Qed.
(** *** The colour proxy *)

Lemma get_lottieProperties_returns (p : Player.t) :
  exists props q, get_lottieProperties p = (Ok props, q).
Proof.
  unfold get_lottieProperties, bind, this, when, assign, ret. simpl.
  destruct (_lottieProperties p); simpl; eauto.
Qed.

Lemma colors_has_loop property props :
  ColorsProxy.has_loop property props = true
  <-> property ∈ map LottieProperty.name (filter (fun c => is_color c) props).
Proof.
  induction props as [|c rest IH]; simpl.
  - split; [discriminate | intros H; by apply not_elem_of_nil in H].
  - destruct (is_color c) eqn:Hc; simpl.
    + rewrite filter_cons_True by (by apply Is_true_true). simpl.
      rewrite elem_of_cons.
      destruct (String.eqb_spec property (LottieProperty.name c)).
      * split; auto.
      * rewrite IH. split; [auto | intros [|]; [contradiction | assumption]].
    + rewrite filter_cons_False by (rewrite Hc; exact id). exact IH.
Qed.

(** The [has] trap answers [true] for a name exactly when the list that
    the [ownKeys] trap returns holds that name. *)
Theorem colors_has_iff_listed (p : Player.t) (property : string) :
  exists keys,
    (ColorsProxy.ownKeys p).1 = Ok keys
    /\ ((ColorsProxy.has property p).1 = Ok true <-> property ∈ keys).
Proof.
  unfold ColorsProxy.ownKeys, ColorsProxy.has, bind, ret.
  destruct (get_lottieProperties_returns p) as (props & q & ->). simpl.
  eexists. split; [reflexivity|].
  rewrite <- colors_has_loop. split; [intros [= ->]; reflexivity | intros ->; reflexivity].
Qed.

(** *** What [init] does *)

Lemma init_connects (p : Player.t) :
  _lottieInstance p = None ->
  is_Some (_lottieInstance (init p).2)
  /\ liveInstances (init p).2 = S (liveInstances p).
Proof.
  intros Hi. pose proof (eq_refl (init p)) as Hrun.
  unfold init at 2 in Hrun. unfold bind at 1, this at 1 in Hrun.
  rewrite Hi in Hrun.
  unfold bind at 1, assign at 1 in Hrun. unfold bind at 1, assign at 1 in Hrun.
  rewrite Hrun. clear Hrun.
  match goal with
  | |- context [(?m ?q).2] =>
      assert (Hrest : preserves connection m)
  end.
  { repeat match goal with
      | |- preserves _ (bind _ _) => apply preserves_bind; [|intros ?]
      | |- preserves _ (when _ _) => apply preserves_when
      | |- preserves _ (assign _) => apply preserves_assign; intros ?; reflexivity
      | |- preserves _ (match ?x with _ => _ end) => destruct x
      | |- preserves _ (ret _) => apply preserves_ret
      | |- preserves _ (set_colors _) => apply preserves_set_colors, blind_connection
      | |- preserves _ (set_stroke _) => apply preserves_set_stroke, blind_connection
      | |- preserves _ connected => apply preserves_connected
      end. }
  match goal with
  | |- context [(?m ?q).2] =>
      specialize (Hrest q); remember (m q).2 as q' eqn:Hq'; clear Hq'
  end.
  unfold connection in Hrest. simpl in Hrest. injection Hrest as Hsome Hlive.
  split; [|exact Hlive].
  apply bool_decide_eq_true_1 in Hsome. exact Hsome.
Qed.

(** On a player without listeners, that is, constructed and then driven
    through any sequence of the public members of the command language:
    whether or not [init] returns, a player that held no instance holds
    one afterwards, and one more instance is live. *)
Theorem init_leaves_an_instance
  (data : LottieData.t) (properties : option IconProperties.t)
  (options : option (option bool)) (p0 : Player.t) (calls : list call) :
  new data properties options = Ok p0 ->
  let p := perform_all calls p0 in
  _lottieInstance p = None ->
  is_Some (_lottieInstance (init p).2)
  /\ liveInstances (init p).2 = S (liveInstances p).
Proof. intros _ p Hi. apply init_connects, Hi. Qed.

Lemma init_loads (p : Player.t) :
  _lottieInstance p = None ->
  IconProperties.colors (_initialProperties p) = None ->
  truthy (IconProperties.stroke (_initialProperties p)) = false ->
  let config :=
    AnimationConfig.mk
      DEFAULT_LOTTIE_WEB_OPTIONS_loop DEFAULT_LOTTIE_WEB_OPTIONS_autoplay
      (option_map segment_of (_state p))
      (assign_fixedParams (fixedParams (_availableStates p))
                          (Utils.deepClone (_iconData p))) in
  (init p).1 = Ok tt
  /\ _lottieInstance (init p).2 = Some (Lottie.loadAnimation config).
Proof.
  intros Hi Hcolors Hstroke. cbv zeta.
  unfold init, bind, this, assign, when, ret, connected. simpl.
  rewrite Hi, Hcolors, Hstroke. simpl.
  destruct (Lottie.isLoaded _); split; reflexivity.
Qed.

(** On a player without listeners (constructed and then driven through
    any sequence of the public members of the command language), when no
    initial colours and no initial stroke are to be applied: [init]
    returns, and the renderer is loaded with the segment of the selected
    state, if there is one, and with a copy of the document; for a
    document with states the [ip] of the copy is the time of the first
    state and its [op] the end of the last one, for a document without
    states the copy is left as it is. *)
Theorem init_configures_the_renderer
  (data : LottieData.t) (properties : option IconProperties.t)
  (options : option (option bool)) (p0 : Player.t) (calls : list call) :
  new data properties options = Ok p0 ->
  let p := perform_all calls p0 in
  _lottieInstance p = None ->
  IconProperties.colors (_initialProperties p) = None ->
  truthy (IconProperties.stroke (_initialProperties p)) = false ->
  exists config,
    (init p).1 = Ok tt
    /\ _lottieInstance (init p).2 = Some (Lottie.loadAnimation config)
    /\ AnimationConfig.initialSegment config = option_map segment_of (_state p)
    /\ (_availableStates p = [] ->
        AnimationConfig.animationData config = _iconData p)
    /\ (forall firstState lastState m,
          head (_availableStates p) = Some firstState ->
          last (_availableStates p) = Some lastState ->
          LottieData.tree (_iconData p) = VObject m ->
          Utils.get (LottieData.tree (AnimationConfig.animationData config))
                    (Utils.PathString "ip") VUndefined
          = Ok (Data (VNum (IconState.time firstState)))
          /\ Utils.get (LottieData.tree (AnimationConfig.animationData config))
                       (Utils.PathString "op") VUndefined
             = Ok (Data (VNum (num_add (num_add (IconState.time lastState)
                                               (IconState.duration lastState))
                                      (num 1))))).
Proof.
  intros _ p Hi Hcolors Hstroke.
  destruct (init_loads p Hi Hcolors Hstroke) as [Hok Hinst].
  eexists. split; [exact Hok|]. split; [exact Hinst|].
  split; [reflexivity|]. split.
  - intros Hlegacy. simpl. rewrite Hlegacy. simpl.
    unfold Utils.deepClone. destruct (_iconData p); reflexivity.
  - intros firstState lastState m Hfirst Hlast Htree.
    cbn [AnimationConfig.animationData].
    unfold fixedParams. rewrite Hfirst, Hlast.
    unfold assign_fixedParams, Utils.deepClone.
    cbn [LottieData.tree LottieData.with_tree].
    rewrite Htree. unfold Utils.write_back, Utils.get. simpl.
    rewrite lookup_insert_ne by discriminate. rewrite !lookup_insert_eq.
    split; reflexivity.
Qed.
End PlayerMore.

(** ** What the members leave alone *)

Section PlayerFrames.
Import Player PlayerSpec TransportSpec.
Context `{realm : Realm} `{coercion : Coercion}
        `{renderer : Lottie.Renderer} `{lib : !LottieLib}.
#[local] Notation "x <- m ;; k" := (bind m (fun x => k))
  (at level 100, m at next level, right associativity).
#[local] Notation "m ;;; k" := (bind m (fun _ => k))
  (at level 100, right associativity).

(** *** The transport members touch nothing but the instance *)

Lemma unplugged_on_instance g : preserves unplugged (on_instance g).
Proof. intros p. reflexivity. Qed.

Lemma unplugged_eq (p q : Player.t) :
  unplugged q = unplugged p -> q = with_lottieInstance (_lottieInstance q) p.
Proof. destruct p, q. unfold unplugged. simpl. intros [= -> -> -> -> -> -> -> -> ->]. reflexivity. Qed.

(** A transport member, whether it returns or throws, changes no field of
    the player other than the renderer instance. *)
Theorem transport_only_touches_the_instance (p : Player.t) (c : call) :
  only_transport c = true ->
  (perform c p).2 = with_lottieInstance (_lottieInstance (perform c p).2) p.
Proof.
  intros Hc. apply unplugged_eq.
  assert (Hkeep : preserves unplugged (perform c)); [|apply Hkeep].
  destruct c; try discriminate; simpl;
    unfold play, playFromStart, pause, stop, seekToStart, seekToEnd, set_frame,
      get_frameCount, seek, switchSegment, set_loop;
    repeat match goal with
      | |- preserves _ (bind _ _) => apply preserves_bind; [|intros ?]
      | |- preserves _ (ret _) => apply preserves_ret
      | |- preserves _ this => apply preserves_this
      | |- preserves _ connected => apply preserves_connected
      | |- preserves _ (on_instance _) => apply unplugged_on_instance
      | |- preserves _ (match ?x with _ => _ end) => destruct x
      end.
Qed.

(** *** Colours and stroke before [init] *)

Lemma bind_throws {A B} (m : M A) (k : A -> M B) (p : Player.t) :
  (forall a, exists e, (k a (m p).2).1 = Throw e) ->
  exists e, (bind m k p).1 = Throw e.
Proof.
  intros Hk. unfold bind. destruct (m p) as [[a|e] q]; simpl in *; eauto.
Qed.

Lemma connection_none (p q : Player.t) :
  connection q = connection p -> _lottieInstance p = None ->
  _lottieInstance q = None.
Proof.
  unfold connection. intros [= Hsome _] Hp. rewrite Hp in Hsome.
  destruct (_lottieInstance q); [|reflexivity].
  rewrite bool_decide_eq_true_2 in Hsome by eauto.
  rewrite bool_decide_eq_false_2 in Hsome by (intros [? ?]; discriminate).
  discriminate.
Qed.

Lemma refresh_throws (p : Player.t) :
  _lottieInstance p = None -> exists e, (refresh p).1 = Throw e.
Proof.
  intros Hi. unfold refresh, bind. rewrite (connected_none p Hi). simpl. eauto.
Qed.

Lemma ends_with_refresh {A} (m : M A) (p : Player.t) :
  preserves connection m -> _lottieInstance p = None ->
  exists e, (bind m (fun _ => refresh) p).1 = Throw e.
Proof.
  intros Hm Hi. apply bind_throws. intros _. apply refresh_throws.
  apply (connection_none p); [apply Hm | exact Hi].
Qed.

Ltac steady :=
  repeat match goal with
    | |- preserves _ (bind _ _) => apply preserves_bind; [|intros ?]
    | |- preserves _ (when _ _) => apply preserves_when
    | |- preserves _ (ret _) => apply preserves_ret
    | |- preserves _ get_lottieProperties =>
        apply preserves_get_lottieProperties, blind_connection
    | |- preserves _ (on_target _ _) =>
        apply preserves_on_target, blind_connection
    | |- preserves _ (apply_colors _) =>
        apply preserves_apply_colors, blind_connection
    | |- preserves _ (match ?x with _ => _ end) => destruct x
    end.

Lemma set_colors_throws colors (p : Player.t) :
  _lottieInstance p = None -> exists e, (set_colors colors p).1 = Throw e.
Proof.
  intros Hi. unfold set_colors.
  apply bind_throws. intros props.
  apply bind_throws. intros _.
  apply ends_with_refresh; [steady|].
  apply (connection_none p); [|exact Hi].
  rewrite (preserves_on_target connection blind_connection).
  apply (preserves_get_lottieProperties connection blind_connection).
Qed.

Lemma set_stroke_throws stroke (p : Player.t) :
  _lottieInstance p = None -> exists e, (set_stroke stroke p).1 = Throw e.
Proof.
  intros Hi. unfold set_stroke.
  apply bind_throws. intros props.
  apply bind_throws. intros _.
  apply ends_with_refresh; [steady|].
  apply (connection_none p); [|exact Hi].
  rewrite (preserves_on_target connection blind_connection).
  apply (preserves_get_lottieProperties connection blind_connection).
Qed.

(** On a player that holds no instance, the setters of [colors], [stroke]
    and [properties] never return: whatever the library does without an
    instance, [refresh] throws at the latest; the player still holds no
    instance afterwards. *)
Theorem colors_and_stroke_need_init (p : Player.t) (c : call) :
  _lottieInstance p = None ->
  refreshes c = true ->
  (exists e, (perform c p).1 = Throw e)
  /\ _lottieInstance (perform c p).2 = None.
Proof.
  intros Hi Hc. split.
  - destruct c; try discriminate; simpl.
    + unfold set_properties, bind.
      destruct (set_colors_throws (IconProperties.colors properties) p Hi)
        as [e He].
      destruct (set_colors _ p) as [[[]|e'] q]; simpl in *; [discriminate|eauto].
    + apply set_colors_throws, Hi.
    + apply set_stroke_throws, Hi.
  - apply (connection_none p); [|exact Hi].
    apply preserves_connection_perform; destruct c; discriminate.
Qed.


(** *** The stored speed and [init] *)

Lemma ignores_ret {A} (a : A) : ignores_speed (ret a).
Proof. intros v p. reflexivity. Qed.

Lemma ignores_throw {A} e : ignores_speed (@throw _ A e).
Proof. intros v p. reflexivity. Qed.

Lemma ignores_lift {A} (r : result A) : ignores_speed (lift r).
Proof. intros v p. reflexivity. Qed.

Lemma ignores_bind {A B} (m : M A) (k : A -> M B) :
  ignores_speed m -> (forall a, ignores_speed (k a)) -> ignores_speed (bind m k).
Proof.
  intros Hm Hk v p. unfold bind. rewrite (Hm v p).
  destruct (m p) as [[a|e] q]; simpl; [apply Hk | reflexivity].
Qed.

(** [this] hands the whole object over; what follows may read any field
    but [_speed]. *)
Lemma ignores_bind_this {A} (k : Player.t -> M A) :
  (forall v p, k (with_speed v p) = k p) ->
  (forall q, ignores_speed (k q)) ->
  ignores_speed (bind this k).
Proof.
  intros Hread Hk v p. unfold bind, this. rewrite Hread. apply Hk.
Qed.

Lemma ignores_when b (m : M unit) : ignores_speed m -> ignores_speed (when b m).
Proof. intros Hm. destruct b; [exact Hm | apply ignores_ret]. Qed.

Lemma ignores_assign (g : Player.t -> Player.t) :
  (forall v p, g (with_speed v p) = with_speed v (g p)) ->
  ignores_speed (assign g).
Proof. intros Hg v p. unfold assign. rewrite Hg. reflexivity. Qed.

Lemma ignores_connected : ignores_speed connected.
Proof.
  intros v p. unfold connected, bind, this. simpl.
  destruct (_lottieInstance p); reflexivity.
Qed.

Lemma ignores_on_instance g : ignores_speed (on_instance g).
Proof. intros v p. reflexivity. Qed.

Lemma ignores_on_target g r : ignores_speed (on_target g r).
Proof.
  intros v p. unfold on_target, bind, this, lift, assign. simpl.
  destruct (_lottieInstance p) as [i|]; [|reflexivity].
  destruct (g i); reflexivity.
Qed.

Lemma ignores_get_lottieProperties : ignores_speed get_lottieProperties.
Proof.
  intros v p. unfold get_lottieProperties, bind, this, when, assign, ret. simpl.
  destruct (_lottieProperties p); reflexivity.
Qed.

Ltac indifferent :=
  repeat match goal with
    | |- ignores_speed (bind this _) =>
        apply ignores_bind_this; [intros ? ?; reflexivity | intros ?]
    | |- ignores_speed (bind _ _) => apply ignores_bind; [|intros ?]
    | |- ignores_speed (ret _) => apply ignores_ret
    | |- ignores_speed (throw _) => apply ignores_throw
    | |- ignores_speed (when _ _) => apply ignores_when
    | |- ignores_speed (assign _) => apply ignores_assign; intros ? ?; reflexivity
    | |- ignores_speed connected => apply ignores_connected
    | |- ignores_speed (on_instance _) => apply ignores_on_instance
    | |- ignores_speed (on_target _ _) => apply ignores_on_target
    | |- ignores_speed get_lottieProperties => apply ignores_get_lottieProperties
    | |- ignores_speed (match ?x with _ => _ end) => destruct x
    | |- ignores_speed (let _ := _ in _) => cbv zeta
    | H : ignores_speed ?m |- ignores_speed ?m => exact H
    end.

Lemma ignores_refresh : ignores_speed refresh.
Proof. unfold refresh. indifferent. Qed.

Lemma ignores_apply_colors entries : ignores_speed (apply_colors entries).
Proof.
  induction entries as [|[key v] rest IH]; simpl; [apply ignores_ret|].
  indifferent.
Qed.

Lemma ignores_set_colors colors : ignores_speed (set_colors colors).
Proof.
  unfold set_colors. indifferent;
    [apply ignores_apply_colors | apply ignores_refresh..].
Qed.

Lemma ignores_set_stroke stroke : ignores_speed (set_stroke stroke).
Proof. unfold set_stroke. indifferent. apply ignores_refresh. Qed.

Lemma ignores_init : ignores_speed init.
Proof.
  unfold init. indifferent;
    solve [apply ignores_set_colors | apply ignores_set_stroke].
Qed.

(** The speed may be assigned before [init], and is stored; [init] then
    runs exactly as if it had not been assigned: it loads and configures
    the same instance, to which the stored speed is not passed on. *)
Theorem init_ignores_the_stored_speed (p : Player.t) (speed : number) :
  _lottieInstance p = None ->
  let q := (set_speed speed p).2 in
  (set_speed speed p).1 = Ok tt
  /\ (init q).1 = (init p).1
  /\ _lottieInstance (init q).2 = _lottieInstance (init p).2
  /\ (get_speed (init q).2).1 = Ok speed.
Proof.
  intros Hi.
  assert (Hset : set_speed speed p = (Ok tt, with_speed speed p)).
  { destruct p; simpl in Hi; subst. reflexivity. }
  rewrite Hset. cbv zeta. cbn [fst snd].
  rewrite (ignores_init speed p). cbn [fst snd].
  repeat split; reflexivity.
Qed.

End PlayerFrames.

(** ** The further properties on the examples *)

Section MoreOnExamples.
Import Player PlayerSpec TransportSpec Examples MoreExamples.
#[local] Existing Instance Reference.realm.
#[local] Existing Instance Reference.coercion.
#[local] Existing Instance Reference.renderer.
#[local] Existing Instance Reference.renderer_laws.
#[local] Existing Instance no_extras.

(** Runs a computation of an example and continues with its result. *)
Ltac run H :=
  match goal with
  | |- context [match ?c with Ok _ => _ | Throw _ => _ end] =>
      eassert (H : c = Ok _) by (vm_compute; reflexivity); rewrite H
  end.


(** On the example: an object holds no [toString], its prototype does. *)
Lemma inherited_key_counts_as_present_witness :
  Utils.has sample_document (Utils.PathArray ["toString"]) = Ok true
  /\ Utils.get sample_document (Utils.PathArray ["toString"]) (VStr "none")
     = Ok (Builtin (Reference.Function_ "toString")).
Proof.
  apply (inherited_key_counts_as_present (realm := Reference.realm)
           sample_document "toString"
           (Builtin (Reference.Function_ "toString")) (VStr "none"));
    reflexivity.
Defined.

(** On the example: there is no fourth layer to write into. *)
Lemma set_raises_on_a_missing_parent_witness :
  exists msg,
    Utils.set sample_document (Utils.PathString "layers.3.op") (VNum (num 1))
    = Throw (TypeError msg).
Proof.
  eapply (set_raises_on_a_missing_parent sample_document
            (Utils.PathString "layers.3.op") (VNum (num 1))
            ["layers"] "3" ["op"]).
  - reflexivity.
  - discriminate.
  - eapply PathSpec.reaches_step; [split; vm_compute; reflexivity|].
    apply PathSpec.reaches_here.
  - vm_compute. reflexivity.
Defined.

(** On the example: listener 1, registered twice, is removed twice. *)
Lemma removeEventListener_removes_every_registration_witness :
  match Events.removeEventListener Events.complete (Some 1%nat) two_listeners with
  | Some reg => Events.callbacks_of (reg Events.complete) = [2%nat]
  | None => False
  end.
Proof.
  destruct (removeEventListener_removes_every_registration
              Events.complete 1%nat two_listeners [1; 2; 1]%nat eq_refl)
    as (reg & -> & Hcallbacks & _).
  rewrite Hcallbacks. reflexivity.
Defined.

(** On the example: a third listener comes and goes. *)
Lemma unsubscribe_undoes_addEventListener_witness :
  match Events.unsubscribe Events.complete 3%nat
          (Events.addEventListener Events.complete 3%nat two_listeners) with
  | Some reg => Events.callbacks_of (reg Events.complete) = [1; 2; 1]%nat
  | None => False
  end.
Proof.
  destruct (unsubscribe_undoes_addEventListener
              Events.complete 3%nat two_listeners)
    as (reg & -> & Hcallbacks & _).
  - vm_compute. intros Hin.
    repeat (apply elem_of_cons in Hin as [Hin|Hin]; [discriminate|]).
    by apply not_elem_of_nil in Hin.
  - rewrite Hcallbacks. reflexivity.
Defined.

(** On the example: [play] before [init]. *)
Lemma transport_needs_init_witness :
  match new states_document None manual with
  | Ok p => perform Play p = (Throw NOT_INITIALIZED, p)
  | Throw _ => False
  end.
Proof.
  run Hnew.
  apply (transport_needs_init (renderer := Reference.renderer)); reflexivity.
Defined.

(** On the example: [destroy] after the automatic [init]. *)
Lemma destroy_disconnects_witness :
  match new states_document None None with
  | Ok p =>
      (destroy p).1 = Ok tt
      /\ destroy (destroy p).2
         = (Throw (Error "Not connected player!"), (destroy p).2)
  | Throw _ => False
  end.
Proof.
  run Hnew.
  match goal with
  | |- (destroy ?p).1 = _ /\ _ =>
      edestruct (destroy_disconnects (renderer := Reference.renderer) p)
        as (Hok & _ & _ & _ & _ & Hagain); [reflexivity|]
  end.
  split; [exact Hok | exact Hagain].
Defined.

(** On the example: [hover-spending] is already selected. *)
Lemma set_state_same_value_is_a_no_op_witness :
  match new states_document None None with
  | Ok p => set_state (VStr "hover-spending") p = (Ok tt, p)
  | Throw _ => False
  end.
Proof.
  run Hnew.
  eapply (set_state_same_value_is_a_no_op (renderer := Reference.renderer));
    reflexivity.
Defined.

(** On the example: a switch to [in-reveal] right after [init]. *)
Lemma switching_state_while_paused_stays_paused_witness :
  match new states_document None None with
  | Ok p => (get_playing (set_state (VStr "in-reveal") p).2).1 = Ok false
            /\ (get_frame (set_state (VStr "in-reveal") p).2).1 = Ok (num 0)
  | Throw _ => False
  end.
Proof.
  run Hnew.
  match goal with
  | |- context [set_state _ ?p] =>
      edestruct (switching_state_while_paused_stays_paused
                   (renderer := Reference.renderer) p)
        with (requested := VStr "in-reveal") as (_ & Hplaying & Hframe)
  end.
  - reflexivity.
  - reflexivity.
  - vm_compute. discriminate.
  - split; [exact Hplaying | exact Hframe].
Defined.

(** On the example: from [in-reveal] back to the default. *)
Lemma null_state_selects_the_default_witness :
  match new states_document (Some (only_state "in-reveal")) None with
  | Ok p => _state (set_state VNull p).2 = Some hover_spending
  | Throw _ => False
  end.
Proof.
  run Hnew.
  match goal with
  | |- _state (set_state VNull ?p).2 = _ =>
      edestruct (null_state_selects_the_default
                   (renderer := Reference.renderer) p) as (_ & Hstate);
        [reflexivity|]
  end.
  rewrite Hstate. reflexivity.
Defined.

(** On the example: [loop-spin] is selected from the catalogue. *)
Lemma set_state_selects_from_the_catalogue_witness :
  match new states_document None None with
  | Ok p => _state (set_state (VStr "loop-spin") p).2 = Some loop_spin
            /\ loop_spin ∈ _availableStates p
  | Throw _ => False
  end.
Proof.
  run Hnew.
  match goal with
  | |- _state (set_state _ ?p).2 = _ /\ _ =>
      assert (Hstate : _state (set_state (VStr "loop-spin") p).2 = Some loop_spin)
        by (vm_compute; reflexivity);
      split; [exact Hstate|];
      edestruct (set_state_selects_from_the_catalogue
                   (renderer := Reference.renderer) p)
        with (requested := VStr "loop-spin") (s := loop_spin) as (Hin & _)
  end.
  - reflexivity.
  - vm_compute. discriminate.
  - exact Hstate.
  - exact Hin.
Defined.

(** On the example: the default state has 50 frames. *)
Lemma seekToEnd_stops_at_the_last_frame_witness :
  match new states_document None None with
  | Ok p => (get_frame (seekToEnd p).2).1 = Ok (num 50)
            /\ (get_playing (seekToEnd p).2).1 = Ok false
  | Throw _ => False
  end.
Proof.
  run Hnew.
  match goal with
  | |- context [seekToEnd ?p] =>
      edestruct (seekToEnd_stops_at_the_last_frame
                   (renderer := Reference.renderer) p) as (_ & Hframe & Hplaying);
        [reflexivity|]
  end.
  split; [rewrite Hframe; reflexivity | exact Hplaying].
Defined.

(** On the example: the document of the icon with states. *)
Lemma modern_document_is_kept_witness :
  match new states_document None None with
  | Ok p => _iconData p = states_document
  | Throw _ => False
  end.
Proof.
  run Hnew.
  apply (modern_document_is_kept states_document None None _ Hnew).
  simpl. discriminate.
Defined.

(** On the example: no marker is called [hover-jump]. *)
Lemma unknown_initial_state_falls_back_witness :
  match new states_document (Some (only_state "hover-jump")) None with
  | Ok p => _state p = Some hover_spending
  | Throw _ => False
  end.
Proof.
  run Hnew.
  rewrite (unknown_initial_state_falls_back states_document
             (only_state "hover-jump") None _ "hover-jump" Hnew).
  - reflexivity.
  - simpl. discriminate.
  - reflexivity.
  - discriminate.
  - intros c Hc. simpl in Hc.
    repeat (apply elem_of_cons in Hc as [->|Hc]; [vm_compute; discriminate|]).
    by apply not_elem_of_nil in Hc.
Defined.

(** On the example: [in-reveal] is requested. *)
Lemma known_initial_state_is_selected_witness :
  match new states_document (Some (only_state "in-reveal")) None with
  | Ok p => (get_state p).1 = Ok (VStr "in-reveal")
  | Throw _ => False
  end.
Proof.
  run Hnew.
  edestruct (known_initial_state_is_selected states_document
               (only_state "in-reveal") None _ "in-reveal" Hnew)
    as (s & _ & _ & _ & Hreads).
  - reflexivity.
  - intros c Hc. simpl in Hc.
    repeat (apply elem_of_cons in Hc as [->|Hc]; [reflexivity|]).
    by apply not_elem_of_nil in Hc.
  - exists (Marker.mk "in-reveal" (num 0) (num 60)).
    split; [simpl; left | reflexivity].
  - exact Hreads.
Defined.

(** On the example: the icon with states, without auto-initialisation. *)
Lemma modern_construction_returns_witness :
  exists p, new states_document None manual = Ok p.
Proof.
  apply (modern_construction_returns states_document None manual).
  - vm_compute. discriminate.
  - reflexivity.
  - reflexivity.
Defined.

(** On the example: the stroke control of the legacy document. *)
Lemma legacy_controls_are_never_listed_witness :
  match new (lib := legacy_lib) legacy_document None None with
  | Ok p =>
      exists l,
        (get_lottieProperties (lib := legacy_lib)
           (perform_all (lib := legacy_lib) [SetStroke (VNum (num 2)); Play] p)).1
        = Ok l
        /\ forall c, c ∈ l -> LottieProperty.name c <> "stroke"
  | Throw _ => False
  end.
Proof.
  run Hnew.
  match goal with
  | |- context [perform_all ?cs ?p] =>
      destruct (legacy_controls_are_never_listed (lib := legacy_lib)
                  legacy_document None None p cs Hnew eq_refl)
        as (l & Hl & Hnames)
  end.
  exists l. split; [exact Hl|]. intros c Hc. apply (Hnames c Hc).
Defined.

(** On the example: [init] called by hand, after a speed was set. *)
Lemma init_leaves_an_instance_witness :
  match new states_document None manual with
  | Ok p0 =>
      let p := perform_all [SetSpeed (num 2)] p0 in
      is_Some (_lottieInstance (init p).2)
      /\ liveInstances (init p).2 = 1%nat
  | Throw _ => False
  end.
Proof.
  run Hnew.
  match goal with
  | |- context [perform_all ?cs ?p0] =>
      apply (init_leaves_an_instance (renderer := Reference.renderer)
               states_document None manual p0 cs Hnew)
  end.
  reflexivity.
Defined.

(** On the example: the range of the three states is 0 to 141. *)
Lemma init_configures_the_renderer_witness :
  match new states_document None manual with
  | Ok p0 =>
      let p := perform_all [SetSpeed (num 2)] p0 in
      exists config,
        _lottieInstance (init p).2 = Some (Lottie.loadAnimation config)
        /\ Utils.get (LottieData.tree (AnimationConfig.animationData config))
                     (Utils.PathString "op") VUndefined
           = Ok (Data (VNum (num 141)))
  | Throw _ => False
  end.
Proof.
  run Hnew.
  match goal with
  | |- context [perform_all ?cs ?p0] =>
      destruct (init_configures_the_renderer (renderer := Reference.renderer)
                  states_document None manual p0 cs Hnew
                  eq_refl eq_refl eq_refl)
        as (config & _ & Hinstance & _ & _ & Hrange)
  end.
  exists config. split; [exact Hinstance|].
  destruct (Hrange in_reveal loop_spin (list_to_map (timeline 0 150))
              eq_refl eq_refl eq_refl) as [_ Hop].
  rewrite Hop. reflexivity.
Defined.

(** On the example: [play] on the initialised player. *)
Lemma transport_only_touches_the_instance_witness :
  match new states_document None None with
  | Ok p =>
      (perform Play p).2
      = with_lottieInstance (_lottieInstance (perform Play p).2) p
  | Throw _ => False
  end.
Proof.
  run Hnew.
  apply (transport_only_touches_the_instance (renderer := Reference.renderer)).
  reflexivity.
Defined.

(** On the example: a stroke assigned before [init]. *)
Lemma colors_and_stroke_need_init_witness :
  match new states_document None manual with
  | Ok p =>
      (exists e, (perform (SetStroke (VNum (num 2))) p).1 = Throw e)
      /\ _lottieInstance (perform (SetStroke (VNum (num 2))) p).2 = None
  | Throw _ => False
  end.
Proof.
  run Hnew.
  apply (colors_and_stroke_need_init (renderer := Reference.renderer));
    reflexivity.
Defined.

(** On the example: speed 2 assigned before [init]. *)
Lemma init_ignores_the_stored_speed_witness :
  match new states_document None manual with
  | Ok p =>
      (init (set_speed (num 2) p).2).1 = (init p).1
      /\ _lottieInstance (init (set_speed (num 2) p).2).2
         = _lottieInstance (init p).2
      /\ (get_speed (init (set_speed (num 2) p).2).2).1 = Ok (num 2)
  | Throw _ => False
  end.
Proof.
  run Hnew.
  match goal with
  | |- context [set_speed _ ?p] =>
      edestruct (init_ignores_the_stored_speed
                   (renderer := Reference.renderer) p (num 2))
        as (_ & Hresult & Hinstance & Hspeed); [reflexivity|]
  end.
  split; [exact Hresult|]. split; [exact Hinstance | exact Hspeed].
Defined.

End MoreOnExamples.
